(** * MONK fixture layer: a shallow embedding of [monk_tf/fixture.py]

    The module under study builds device and connection objects from a
    nested configuration mapping and dispatches commands to them.  The
    embedding keeps the shape of the Python code: the [Fixture] object is a
    record, every method is a function in a state-and-exception monad over
    that record, [for] loops are written with a loop combinator, and the
    calls that leave the module (logger, device methods, class
    constructors) are recorded in a chronological trace. *)

From Stdlib Require Import ZArith List String Bool Lia.
From stdpp Require Import base option list strings gmap.

Import ListNotations.
#[local] Set Warnings "-register-all".
Local Open Scope string_scope.
Local Open Scope Z_scope.

(** ** Data *)

(** A Python class is known here only by its name: the classes themselves
    ([dev.Device], [conn.SerialConn], ...) live in other modules. *)
Definition pyclass := string.

(** The Python values that occur: strings, integers, lists of strings,
    sections and the objects built from them.  A section is an ordered
    mapping from keys to values; [_parse_section] stores the objects it
    builds back into the section, so objects are values too.  An object
    carries its identity [oid] (Python's [id]), its class and the keyword
    arguments it was constructed with. *)
Inductive value : Type :=
| VStr (s : string)
| VInt (i : Z)
| VList (l : list string)
| VSec (items : list (string * value))
| VObj (h : handle)
| VObjs (hs : list handle)
with handle : Type :=
| Obj (oid : nat) (cls : pyclass) (kwargs : list (string * value)).

Definition section := list (string * value).

Definition oid_of (h : handle) : nat := match h with Obj o _ _ => o end.
Definition cls_of (h : handle) : pyclass := match h with Obj _ c _ => c end.
Definition kwargs_of (h : handle) : section := match h with Obj _ _ k => k end.

(** *** Ordered mappings (the part of [configobj.Section] used)

    A [configobj.Section] keeps the keys of its scalars and the keys of
    its sub-sections in two lists, each in the order of arrival, and
    [keys()] and the iteration over the section yield the scalars first,
    then the sub-sections.  A section is held here as the list of its
    items in that order.  A Python mapping has every key once; the
    functions below look at the first item with a key, and [remove] drops
    them all. *)

Definition is_section (v : value) : bool :=
  match v with VSec _ => true | _ => false end.

Module Dict.

(** [key in d] / [d[key]] *)
Fixpoint get (k : string) (d : section) : option value :=
  match d with
  | [] => None
  | (k', v) :: d' => if String.eqb k k' then Some v else get k d'
  end.

Definition mem (k : string) (d : section) : bool :=
  match get k d with Some _ => true | None => false end.

(** [del d[key]] *)
Fixpoint remove (k : string) (d : section) : section :=
  match d with
  | [] => []
  | (k', v) :: d' => if String.eqb k k' then remove k d' else (k', v) :: remove k d'
  end.

(** [d[key] = v].  An existing key keeps its place, whatever the old and
    the new value are.  A new key whose value is a section goes last,
    with the sub-sections; a new key with any other value goes to the end
    of the scalars, before the sub-sections that the list ends with. *)
Fixpoint replace (k : string) (v : value) (d : section) : section :=
  match d with
  | [] => []
  | (k', v') :: d' =>
      if String.eqb k k' then (k, v) :: d' else (k', v') :: replace k v d'
  end.

Fixpoint add_scalar (k : string) (v : value) (d : section) : section :=
  match d with
  | [] => [(k, v)]
  | kv :: d' =>
      if forallb (fun x => is_section (snd x)) d then (k, v) :: d
      else kv :: add_scalar k v d'
  end.

Definition set (k : string) (v : value) (d : section) : section :=
  if mem k d then replace k v d
  else if is_section v then (d ++ [(k, v)])%list
  else add_scalar k v d.

Definition keys (d : section) : list string := map fst d.

End Dict.

(** *** Exceptions *)

(** The exceptions that occur.  [KeyError] carries the missing key.  The
    last four constructors are the members of the fixture layer's own
    hierarchy ([AFixtureException]) that the code raises; [External] stands
    for whatever a device, a connection, a constructor or configobj
    raises. *)
Inductive exn : Type :=
| KeyError (k : value)
| IndexError
| TypeError
| AttributeError
| UnicodeDecodeError
| External (what : string)
| NoPropsException
| NoDeviceException
| CantHandleException (fixt : string) (devs : list handle) (msg : string)
| WrongNameException (which : value) (names : list string).

(** [isinstance(e, AFixtureException)] *)
Definition is_AFixtureException (e : exn) : bool :=
  match e with
  | NoPropsException | NoDeviceException
  | CantHandleException _ _ _ | WrongNameException _ _ => true
  | _ => false
  end.

Inductive result (A : Type) : Type :=
| Ok (a : A)
| Raise (e : exn).
Arguments Ok {A} a.
Arguments Raise {A} e.

(** *** Calls to [cmd] *)

(** An argument of a call is either passed or left to the callee's default. *)
Inductive kwarg (A : Type) : Type :=
| Omitted
| Passed (a : A).
Arguments Omitted {A}.
Arguments Passed {A} a.

Record cmd_args : Type := CmdArgs {
  a_msg : string;
  a_expect : kwarg (option string);
  a_timeout : kwarg Z;
  a_login_timeout : kwarg (option Z)
}.

(** *** The trace of outside calls *)

Inductive logmsg : Type :=
| Msg_read (source : section)
| Msg_initialize (props : section)
| Msg_parse_section (name : string) (keys : list string)
| Msg_deprecated
| Msg_load_section (cls : pyclass) (sec : section)
| Msg_cmd_first (msg : string) (expect : option string) (timeout : Z)
    (login_timeout : option Z)
| Msg_cmd_any (msg : string) (expect : option string) (timeout : Z)
    (login_timeout : option Z)
| Msg_send_cmd (msg : string) (dev : handle)
| Msg_no_devices
| Msg_teardown
| Msg_no_auto_search.

Inductive event : Type :=
| Log_debug (m : logmsg)
| Log_warning (m : logmsg)
| Log_exception (e : exn)
| Call_new (cls : pyclass) (kwargs : section)
| Call_cmd (dev : handle) (a : cmd_args)
| Call_close_all (dev : handle)
| Call_reset_config (dev : handle).

(** *** The fixture object *)

(** The attributes of [Fixture] that the methods below touch, and two
    pieces of the surrounding interpreter state: the next free object
    identity and the trace of outside calls made so far. *)
Record Fixture : Type := MkFixture {
  name : string;
  devs : list handle;
  _devs_dict : gmap string handle;
  classes : gmap string pyclass;
  props : section;
  next_oid : nat;
  trace : list event
}.

Definition with_devs (ds : list handle) (f : Fixture) : Fixture :=
  MkFixture (name f) ds (_devs_dict f) (classes f) (props f) (next_oid f) (trace f).
Definition with_devs_dict (m : gmap string handle) (f : Fixture) : Fixture :=
  MkFixture (name f) (devs f) m (classes f) (props f) (next_oid f) (trace f).
Definition with_props (p : section) (f : Fixture) : Fixture :=
  MkFixture (name f) (devs f) (_devs_dict f) (classes f) p (next_oid f) (trace f).
Definition with_next_oid (n : nat) (f : Fixture) : Fixture :=
  MkFixture (name f) (devs f) (_devs_dict f) (classes f) (props f) n (trace f).
Definition emits (es : list event) (f : Fixture) : Fixture :=
  MkFixture (name f) (devs f) (_devs_dict f) (classes f) (props f) (next_oid f)
    (trace f ++ es).
Definition emit (e : event) : Fixture -> Fixture := emits [e].

(** ** The monad of methods *)

(** A method runs on the fixture and ends in a value or an exception; the
    fixture as the method left it is there in both cases. *)
Definition M (A : Type) : Type := Fixture -> result A * Fixture.

Definition ret {A} (a : A) : M A := fun f => (Ok a, f).
Definition raise {A} (e : exn) : M A := fun f => (Raise e, f).
Definition bind {A B} (m : M A) (k : A -> M B) : M B :=
  fun f => match m f with
           | (Ok a, f') => k a f'
           | (Raise e, f') => (Raise e, f')
           end.
(** [try: m except <handles>: h] *)
Definition try_except {A} (m : M A) (handles : exn -> bool) (h : exn -> M A) : M A :=
  fun f => match m f with
           | (Ok a, f') => (Ok a, f')
           | (Raise e, f') => if handles e then h e f' else (Raise e, f')
           end.
Definition get_self : M Fixture := fun f => (Ok f, f).
Definition modify (g : Fixture -> Fixture) : M unit := fun f => (Ok tt, g f).

Notation "'let!' x ':=' m 'in' k" := (bind m (fun x => k))
  (at level 10, x name, m at level 100, k at level 200, only parsing).
Notation "'do!' m 'in' k" := (bind m (fun _ => k))
  (at level 10, m at level 100, k at level 200, only parsing).

(** The body of a [for] loop either falls through to the next element or
    leaves the function with [return]. *)
Inductive ctl (A : Type) : Type :=
| Next
| Return (a : A).
Arguments Next {A}.
Arguments Return {A} a.

(** [for x in l: body]; the value is [Some a] when the body returned [a]
    and [None] when the loop ran to its end. *)
Fixpoint for_ {X A} (l : list X) (body : X -> M (ctl A)) : M (option A) :=
  match l with
  | [] => ret None
  | x :: l' =>
      let! c := body x in
      match c with
      | Return a => ret (Some a)
      | Next => for_ l' body
      end
  end.

(** [self.log(msg)] and the logger's other levels *)
Definition log (m : logmsg) : M unit := modify (emit (Log_debug m)).
Definition log_warning (m : logmsg) : M unit := modify (emit (Log_warning m)).
Definition log_exception (e : exn) : M unit := modify (emit (Log_exception e)).

(** ** Indexing *)

(** [l[which]] on a list: an integer counts from the front, a negative one
    from the back; out of range is [IndexError]; anything but an integer is
    [TypeError]. *)
Definition list_getitem (l : list handle) (which : value) : result handle :=
  match which with
  | VInt i =>
      let n := Z.of_nat (length l) in
      let j := if i <? 0 then i + n else i in
      if (0 <=? j) && (j <? n) then
        match nth_error l (Z.to_nat j) with
        | Some h => Ok h
        | None => Raise IndexError
        end
      else Raise IndexError
  | _ => Raise TypeError
  end.

(** [d[which]] on a dictionary with string keys: lists and sections cannot
    be hashed ([TypeError]); any other key that is not there is
    [KeyError]. *)
Definition dict_getitem {A} (d : gmap string A) (which : value) : result A :=
  match which with
  | VStr s => match d !! s with Some a => Ok a | None => Raise (KeyError which) end
  | VInt _ | VObj _ => Raise (KeyError which)
  | VList _ | VSec _ | VObjs _ => Raise TypeError
  end.

Definition lift {A} (r : result A) : M A := fun f => (r, f).

(** ** The objects behind the handles *)

(** Devices, connections and their classes are defined in other modules;
    what they do is a parameter of the development.  Every behaviour may
    depend on the calls made so far (the trace), so that a device may for
    instance answer differently once it has been closed.
    - [dev_name h] is the attribute [h.name];
    - [dev_cmd tr h a] is what [h.cmd(...)] with arguments [a] does;
    - [dev_close_all tr h] and [dev_reset_config tr h] are [None] when the
      call returns and [Some e] when it raises [e];
    - [construct tr cls kwargs] tells whether calling class [cls] with
      keyword arguments [kwargs] raises.

    So is what configobj and the dictionaries of Python 2 do where the
    module relies on them:
    - [interpolate tr sec key s] is what the string interpolation of
      configobj makes of the stored string [s], which holds a [%], when it
      is read under [key] from the section [sec]: another string, or an
      exception such as [MissingInterpolationOption];
    - [interpolate_list tr sec key l] is the same for a stored list one of
      whose strings holds a [%] (configobj 5 interpolates the strings of
      the list, older versions return the list as it is);
    - [pop_deletes_first] tells whether [Section.pop] removes the key
      before it interpolates the value (configobj 4) or after (configobj
      5), which shows when the interpolation raises;
    - [key_order tr keys] is the order in which [self.props.viewkeys()]
      yields the keys: the view is the one of [dict], so the order is that
      of the hash table, some permutation of the keys. *)
Record World : Type := MkWorld {
  dev_name : handle -> string;
  dev_cmd : list event -> handle -> cmd_args -> result string;
  dev_close_all : list event -> handle -> option exn;
  dev_reset_config : list event -> handle -> option exn;
  construct : list event -> pyclass -> section -> option exn;
  interpolate : list event -> section -> string -> string -> result string;
  interpolate_list :
    list event -> section -> string -> list string -> result (list string);
  pop_deletes_first : bool;
  key_order : list event -> list string -> list string;
  key_order_perm : forall tr keys, Permutation (key_order tr keys) keys
}.

(** *** Strings *)

(** the character [%], which marks an interpolation in configobj *)
Definition percent : Ascii.ascii := Ascii.ascii_of_nat 37.

Fixpoint has_percent (s : string) : bool :=
  match s with
  | EmptyString => false
  | String c s' => Ascii.eqb c percent || has_percent s'
  end.

(** The values configobj interpolates when they are read: strings, and
    lists of strings, with a [%] in them. *)
Definition has_cookie (v : value) : bool :=
  match v with
  | VStr s => has_percent s
  | VList l => existsb has_percent l
  | _ => false
  end.

(** No string of the value, at any depth, holds a [%]: configobj finds
    nothing to interpolate in it. *)
Fixpoint no_cookie (v : value) : bool :=
  match v with
  | VSec items =>
      (fix go (l : list (string * value)) : bool :=
         match l with
         | [] => true
         | (_, v') :: l' => no_cookie v' && go l'
         end) items
  | _ => negb (has_cookie v)
  end.

(** a byte of the ASCII range *)
Definition is_ascii_char (c : Ascii.ascii) : bool :=
  match c with Ascii.Ascii _ _ _ _ _ _ _ b7 => negb b7 end.

Fixpoint is_ascii (s : string) : bool :=
  match s with
  | EmptyString => true
  | String c s' => is_ascii_char c && is_ascii s'
  end.

(** The depth of nesting of sections in a value. *)
Fixpoint depth (v : value) : nat :=
  match v with
  | VSec items =>
      S ((fix go (l : list (string * value)) : nat :=
            match l with
            | [] => O
            | (_, v') :: l' => Nat.max (depth v') (go l')
            end) items)
  | _ => O
  end.

(** [configobj.Section.merge], which is not part of this module.
    Modelled from the spec: for each key of the new tree, when the old and
    the new value are both sections they are merged key by key, otherwise
    the new value replaces the old one. *)
Fixpoint merge_value (old : option value) (new : value) : value :=
  match new, old with
  | VSec n, Some (VSec o) =>
      VSec ((fix go (n : list (string * value)) (o : section) : section :=
               match n with
               | [] => o
               | (k, v) :: n' => go n' (Dict.set k (merge_value (Dict.get k o) v) o)
               end) n o)
  | _, _ => new
  end.

Definition merge (indict : section) (self : section) : section :=
  match merge_value (Some (VSec self)) (VSec indict) with
  | VSec s => s
  | _ => self
  end.

Section Methods.

Variable w : World.

(** *** Calls that leave the module *)

Definition call_cmd (dev : handle) (a : cmd_args) : M string :=
  fun f => (dev_cmd w (trace f) dev a, emit (Call_cmd dev a) f).

(** a call that returns nothing, or raises *)
Definition call_void (behaviour : list event -> handle -> option exn)
    (ev : handle -> event) (dev : handle) : M unit :=
  fun f => (match behaviour (trace f) dev with
            | None => Ok tt
            | Some e => Raise e
            end, emit (ev dev) f).

Definition call_close_all : handle -> M unit :=
  call_void (dev_close_all w) Call_close_all.

Definition call_reset_config : handle -> M unit :=
  call_void (dev_reset_config w) Call_reset_config.

(** The call of [sectype] with the section as keyword arguments: the new
    object gets the next free identity. *)
Definition call_new (cls : pyclass) (kwargs : section) : M handle :=
  fun f => match construct w (trace f) cls kwargs with
           | Some e => (Raise e, emit (Call_new cls kwargs) f)
           | None => (Ok (Obj (next_oid f) cls kwargs),
                      with_next_oid (S (next_oid f)) (emit (Call_new cls kwargs) f))
           end.

(** *** [_parse_section]

    The method works on the section object it is given and changes it in
    place, so a step of it runs on the section and the fixture together.
    [None] is the model's own: the recursion ran out of fuel. *)
Definition P (A : Type) : Type :=
  section -> Fixture -> option (result A * section * Fixture).

Definition pret {A} (a : A) : P A := fun s f => Some (Ok a, s, f).
Definition praise {A} (e : exn) : P A := fun s f => Some (Raise e, s, f).
Definition pbind {A B} (m : P A) (k : A -> P B) : P B :=
  fun s f => match m s f with
             | None => None
             | Some (Ok a, s', f') => k a s' f'
             | Some (Raise e, s', f') => Some (Raise e, s', f')
             end.
(** a method of the fixture, run from inside *)
Definition pself {A} (m : M A) : P A :=
  fun s f => match m f with (r, f') => Some (r, s, f') end.
(** a recursive call on another section object *)
Definition pcall {A} (m : Fixture -> option (result A * value * Fixture)) : P A :=
  fun s f => match m f with
             | None => None
             | Some (r, _, f') => Some (r, s, f')
             end.

(** What configobj returns for the value [v] stored under [key] in the
    section [sec]: the value itself, unless it is a string or a list of
    strings with a [%] in it, which goes through the interpolation. *)
Definition cfg_read (tr : list event) (sec : section) (key : string) (v : value)
    : result value :=
  match v with
  | VStr x =>
      if has_percent x then
        match interpolate w tr sec key x with
        | Ok y => Ok (VStr y)
        | Raise e => Raise e
        end
      else Ok v
  | VList l =>
      if existsb has_percent l then
        match interpolate_list w tr sec key l with
        | Ok l' => Ok (VList l')
        | Raise e => Raise e
        end
      else Ok v
  | _ => Ok v
  end.

(** [sec[key]] on a section of configobj *)
Definition cfg_getitem (tr : list event) (sec : section) (key : string)
    : result value :=
  match Dict.get key sec with
  | None => Raise (KeyError (VStr key))
  | Some v => cfg_read tr sec key v
  end.

(** [key in section], [section.pop(key)], [section[key] = v] *)
Definition p_in (k : string) : P bool := fun s f => Some (Ok (Dict.mem k s), s, f).
Definition p_pop (k : string) : P value :=
  fun s f => match Dict.get k s with
             | Some v =>
                 match cfg_read (trace f) s k v with
                 | Ok v' => Some (Ok v', Dict.remove k s, f)
                 | Raise e =>
                     Some (Raise e,
                           if pop_deletes_first w then Dict.remove k s else s, f)
                 end
             | None => Some (Raise (KeyError (VStr k)), s, f)
             end.
Definition p_set (k : string) (v : value) : P unit :=
  fun s f => Some (Ok tt, Dict.set k v s, f).
Definition p_section : P section := fun s f => Some (Ok s, s, f).

(** [self.classes[tag]] *)
Definition p_class (tag : value) : P pyclass :=
  pself (let! self := get_self in lift (dict_getitem (classes self) tag)).

(** The pairs [(s, cs[s])] that [for s in cs] goes through.  A section
    yields its keys.  A string yields its characters and a list its
    elements, and indexing [cs] with the first of them is a [TypeError];
    only when they are empty does the loop end at once.  Integers and
    objects cannot be iterated. *)
Definition iter_items (cs : value) : result (list (string * value)) :=
  match cs with
  | VSec items => Ok items
  | VStr "" | VList [] | VObjs [] => Ok []
  | _ => Raise TypeError
  end.

(** [[rec(s, cs[s]) for s in cs]], for the items of [cs] that are still
    to come; [cs[s]] is read as configobj reads it. *)
Fixpoint p_each (rec : string -> value -> Fixture -> option (result handle * value * Fixture))
    (cs : section) (items : list (string * value)) : P (list handle) :=
  match items with
  | [] => pret []
  | (s, v) :: items' =>
      pbind (pself (fun f => (cfg_read (trace f) cs s v, f))) (fun v' =>
      pbind (pcall (rec s v')) (fun h =>
      pbind (p_each rec cs items') (fun hs =>
      pret (h :: hs))))
  end.

Notation "'let?' x ':=' m 'in' k" := (pbind m (fun x => k))
  (at level 10, x name, m at level 100, k at level 200, only parsing).
Notation "'do?' m 'in' k" := (pbind m (fun _ => k))
  (at level 10, m at level 100, k at level 200, only parsing).

Definition p_when (b : bool) (m : P unit) : P unit := if b then m else pret tt.

Section Body.

(** The recursive calls of [_parse_section] *)
Variable rec : string -> value -> Fixture -> option (result handle * value * Fixture).

(** [if "conns" in section: ...] *)
Definition parse_conns : P unit :=
  let? has_conns := p_in "conns" in
  p_when has_conns (
    let? cs := p_pop "conns" in
    let? items := pself (lift (iter_items cs)) in
    let? hs := p_each rec items items in
    p_set "conns" (VObjs hs)).

(** [if "bcc" in section: ...] *)
Definition parse_bcc : P unit :=
  let? has_bcc := p_in "bcc" in
  p_when has_bcc (
    do? pself (log Msg_deprecated) in
    let? bs := p_pop "bcc" in
    let? h := pcall (rec "bcc" bs) in
    p_set "bcc" (VObj h)).

(** [if "bctrl" in section: ...] *)
Definition parse_bctrl : P unit :=
  let? has_bctrl := p_in "bctrl" in
  p_when has_bctrl (
    let? bs := p_pop "bctrl" in
    let? h := pcall (rec "bctrl" bs) in
    p_set "bcc" (VObj h)).

(** The last three statements. *)
Definition parse_new (name : string) (sectype : pyclass) : P handle :=
  do? p_set "name" (VStr name) in
  let? kwargs := p_section in
  do? pself (log (Msg_load_section sectype kwargs)) in
  pself (call_new sectype kwargs).

(** The statements after the first [debug] call. *)
Definition parse_body (name : string) : P handle :=
  let? tag := p_pop "type" in
  let? sectype := p_class tag in
  do? parse_conns in
  do? parse_bcc in
  do? parse_bctrl in
  parse_new name sectype.

End Body.

Fixpoint _parse_section (fuel : nat) (name : string) (section : value) (f : Fixture)
    : option (result handle * value * Fixture) :=
  match fuel with
  | O => None
  | S fuel' =>
      match section with
      | VSec sec =>
          match parse_body (_parse_section fuel') name sec
                  (emit (Log_debug (Msg_parse_section name (Dict.keys sec))) f) with
          | None => None
          | Some (r, sec', f') => Some (r, VSec sec', f')
          end
      | _ =>
          (* [section.keys()] in the first statement fails *)
          Some (Raise AttributeError, section, f)
      end
  end.

(** [[self._parse_section(d, self.props[d]) for d in ...]], for the keys
    [ds] in the order in which they are yielded: [self.props[d]] is read as
    configobj reads it, and when it is a section, the object parsed is the
    one held in [self.props], so what the parse did to it stays in
    [self.props]. *)
Fixpoint parse_devs (fuel : nat) (ds : list string) (f : Fixture)
    : option (result (list handle) * Fixture) :=
  match ds with
  | [] => Some (Ok [], f)
  | d :: ds' =>
      match cfg_getitem (trace f) (props f) d with
      | Raise e => Some (Raise e, f)
      | Ok sec =>
          match _parse_section fuel d sec f with
          | None => None
          | Some (r, sec', f1) =>
              let f2 := match sec with
                        | VSec _ => with_props (Dict.set d sec' (props f1)) f1
                        | _ => f1
                        end in
              match r with
              | Raise e => Some (Raise e, f2)
              | Ok h =>
                  match parse_devs fuel ds' f2 with
                  | None => None
                  | Some (Raise e, f3) => Some (Raise e, f3)
                  | Some (Ok hs, f3) => Some (Ok (h :: hs), f3)
                  end
              end
          end
      end
  end.

(** The fuel [_initialize] gives the parse: the depth of [self.props],
    which is enough ([parse_devs_total] below). *)
Definition _initialize : M unit :=
  let! self := get_self in
  do! log (Msg_initialize (props self)) in
  match props self with
  | [] => raise NoPropsException
  | _ :: _ =>
      fun f =>
        match parse_devs (depth (VSec (props f)))
                (key_order w (trace f) (Dict.keys (props f))) f with
        | Some (Ok hs, f') => (Ok tt, with_devs hs f')
        | Some (Raise e, f') => (Raise e, f')
        | None => (Raise (External "out of fuel"), f)
        end
  end.

Definition tear_down : M unit :=
  do! log Msg_teardown in
  let! self := get_self in
  do! for_ (A := unit) (devs self) (fun device =>
        do! call_close_all device in
        ret Next) in
  modify (with_devs []).

(** [source] is the tree that [config.ConfigObj(source)] reads. *)
Definition read (source : section) : M unit :=
  do! log (Msg_read source) in
  do! tear_down in
  do! modify (fun f => with_props (merge source (props f)) f) in
  _initialize.

Definition is_IndexError (e : exn) : bool :=
  match e with IndexError => true | _ => false end.
Definition is_TypeError (e : exn) : bool :=
  match e with TypeError => true | _ => false end.
Definition is_KeyError (e : exn) : bool :=
  match e with KeyError _ => true | _ => false end.
(** [except Exception]: every exception of the model is one. *)
Definition is_Exception (e : exn) : bool := true.

Definition cmd_first (msg : string) (expect : option string) (timeout : Z)
    (login_timeout : option Z) : M string :=
  do! log (Msg_cmd_first msg expect timeout login_timeout) in
  try_except
    (let! self := get_self in
     let! dev := lift (list_getitem (devs self) (VInt 0)) in
     call_cmd dev (CmdArgs msg Omitted Omitted Omitted))
    is_IndexError
    (fun _ => raise NoDeviceException).

Definition warn_if_no_devs : M unit :=
  let! self := get_self in
  match devs self with
  | [] => log_warning Msg_no_devices
  | _ :: _ => ret tt
  end.

(** [msg.encode("unicode-escape")] on a byte string: Python 2 decodes the
    string as ASCII first, which fails on a byte above 127. *)
Definition encode_unicode_escape (msg : string) : M unit :=
  if is_ascii msg then ret tt else raise UnicodeDecodeError.

(** The result is [None] where the Python function ends without
    [return]. *)
Definition cmd_any (msg : string) (expect : option string) (timeout : Z)
    (login_timeout : option Z) : M (option string) :=
  do! log (Msg_cmd_any msg expect timeout login_timeout) in
  do! warn_if_no_devs in
  let! self := get_self in
  for_ (devs self) (fun dev =>
    let! c :=
      try_except
        (do! encode_unicode_escape msg in
         do! log (Msg_send_cmd msg dev) in
         let! r := call_cmd dev
                     (CmdArgs msg (Passed expect) (Passed timeout)
                        (Passed login_timeout)) in
         ret (Return r))
        is_Exception
        (fun e => do! log_exception e in ret Next) in
    match c with
    | Return r => ret (Return r)
    | Next =>
        let! self := get_self in
        do! encode_unicode_escape msg in
        raise (CantHandleException (name self) (devs self) msg)
    end).

Definition cmd_all (msg : string) (expect : option string) (timeout : Z)
    (login_timeout : option Z) : M (option string) :=
  do! log (Msg_cmd_any msg expect timeout login_timeout) in
  do! warn_if_no_devs in
  let! self := get_self in
  for_ (devs self) (fun dev =>
    do! encode_unicode_escape msg in
    do! log (Msg_send_cmd msg dev) in
    let! r := call_cmd dev
                (CmdArgs msg (Passed expect) (Passed timeout)
                   (Passed login_timeout)) in
    ret (Return r)).

(** [dev.name == which] *)
Definition name_is (dev : handle) (which : value) : bool :=
  match which with
  | VStr s => String.eqb (dev_name w dev) s
  | _ => false
  end.

(** [self._devs_dict[which] = dev] *)
Definition devs_dict_set (which : value) (dev : handle) : M unit :=
  match which with
  | VStr s => modify (fun f => with_devs_dict (<[s := dev]> (_devs_dict f)) f)
  | _ => ret tt
  end.

(** The loop of [get_dev] over the devices, with its local list
    [names], and the [raise] after it. *)
Fixpoint get_dev_scan (which : value) (ds : list handle) (names : list string)
    : M handle :=
  match ds with
  | [] => raise (WrongNameException which names)
  | dev :: ds' =>
      if name_is dev which then
        do! devs_dict_set which dev in
        ret dev
      else get_dev_scan which ds' (names ++ [dev_name w dev])
  end.

Definition get_dev (which : value) : M handle :=
  try_except
    (let! self := get_self in lift (list_getitem (devs self) which))
    is_TypeError
    (fun _ =>
       try_except
         (let! self := get_self in lift (dict_getitem (_devs_dict self) which))
         is_KeyError
         (fun _ =>
            let! self := get_self in
            get_dev_scan which (devs self) [])).

Definition reset_config_all : M unit :=
  do! warn_if_no_devs in
  let! self := get_self in
  do! for_ (A := unit) (devs self) (fun dev =>
        do! call_reset_config dev in
        ret Next) in
  ret tt.

End Methods.

(** ** Construction *)

Definition _DEFAULT_CLASSES : gmap string pyclass :=
  <["Device" := "dev.Device"]>
  (<["HydraDevice" := "dev.Hydra"]>
  (<["SerialConnection" := "conn.SerialConn"]>
  (<["SshConnection" := "conn.SshConn"]> ∅))).

(** [Fixture(call_location, name, classes, auto_search=False)]: the state
    of a new fixture that does not search for files.  [name or
    self.__class__.__name__] takes the name of the class when no name or
    an empty one is given, and [classes or self._DEFAULT_CLASSES] the
    default when no classes or an empty dictionary are given. *)
Definition Fixture_init (nm : option string) (cls : option (gmap string pyclass))
    : Fixture :=
  {| name := "monk_tf.fixture:"
             ++ match nm with
                | Some n => if String.eqb n "" then "Fixture" else n
                | None => "Fixture"
                end;
     devs := [];
     _devs_dict := ∅;
     classes := match cls with
                | Some c => if decide (c = ∅) then _DEFAULT_CLASSES else c
                | None => _DEFAULT_CLASSES
                end;
     props := [];
     next_oid := O;
     trace := [Log_debug Msg_no_auto_search] |}.

(** ** Reading the trace *)

(** The devices on which [cmd], [close_all] and [reset_config] were called,
    in the order of the calls. *)
Fixpoint cmd_calls (tr : list event) : list (handle * cmd_args) :=
  match tr with
  | [] => []
  | Call_cmd h a :: tr' => (h, a) :: cmd_calls tr'
  | _ :: tr' => cmd_calls tr'
  end.

Fixpoint close_all_calls (tr : list event) : list handle :=
  match tr with
  | [] => []
  | Call_close_all h :: tr' => h :: close_all_calls tr'
  | _ :: tr' => close_all_calls tr'
  end.

Fixpoint reset_config_calls (tr : list event) : list handle :=
  match tr with
  | [] => []
  | Call_reset_config h :: tr' => h :: reset_config_calls tr'
  | _ :: tr' => reset_config_calls tr'
  end.

(** The number of deprecation notices logged. *)
Fixpoint notices (tr : list event) : nat :=
  match tr with
  | [] => O
  | Log_debug Msg_deprecated :: tr' => S (notices tr')
  | _ :: tr' => notices tr'
  end.


(** ** A laboratory

    A concrete world and concrete fixtures, for running the methods. *)
Module Lab.

(** the [name] an object was constructed with *)
Definition name_attr (h : handle) : string :=
  match Dict.get "name" (kwargs_of h) with
  | Some (VStr s) => s
  | _ => ""
  end.

Definition named (nm : string) (h : handle) : bool := String.eqb (name_attr h) nm.

(** The interpolation of the laboratory knows one form: a string that is,
    as a whole, one reference [%(option)s] to an option of the same
    section stands for the string under that option, and fails as a
    missing option does in configobj when there is no such string; every
    other string is left as it is. *)
Definition reference (s : string) : option string :=
  match s with
  | String c1 (String c2 rest) =>
      let n := String.length rest in
      if Ascii.eqb c1 percent && Ascii.eqb c2 (Ascii.ascii_of_nat 40)
         && String.eqb (String.substring (n - 2)%nat 2 rest) ")s"
      then Some (String.substring 0 (n - 2)%nat rest)
      else None
  | _ => None
  end.

Definition interpolation (sec : section) (s : string) : result string :=
  match reference s with
  | Some o =>
      match Dict.get o sec with
      | Some (VStr x) =>
          if has_percent x then Raise (External "MissingInterpolationOption")
          else Ok x
      | _ => Raise (External "MissingInterpolationOption")
      end
  | None => Ok s
  end.

Fixpoint interpolation_list (sec : section) (l : list string)
    : result (list string) :=
  match l with
  | [] => Ok []
  | x :: l' =>
      match (if has_percent x then interpolation sec x else Ok x),
            interpolation_list sec l' with
      | Ok y, Ok l'' => Ok (y :: l'')
      | Raise e, _ => Raise e
      | _, Raise e => Raise e
      end
  end.

(** a device that has been closed, by the calls made so far *)
Definition closed (tr : list event) (h : handle) : bool :=
  existsb (fun h' => Nat.eqb (oid_of h') (oid_of h)) (close_all_calls tr).

(** Devices [d1] and [d2] do not answer commands; device [d1] can
    neither be closed nor reset; every constructor succeeds.  The keys of
    [self.props] are yielded in the order in which they were put in, and
    [Section.pop] interpolates the value before it removes the key. *)
Definition world : World :=
  {| dev_name := name_attr;
     dev_cmd := fun _ h _ =>
       if named "d1" h || named "d2" h then Raise (External "timeout")
       else Ok ("done by " ++ name_attr h);
     dev_close_all := fun _ h =>
       if named "d1" h then Some (External "stuck") else None;
     dev_reset_config := fun _ h =>
       if named "d1" h then Some (External "stuck") else None;
     construct := fun _ _ _ => None;
     interpolate := fun _ sec _ s => interpolation sec s;
     interpolate_list := fun _ sec _ l => interpolation_list sec l;
     pop_deletes_first := false;
     key_order := fun _ keys => keys;
     key_order_perm := fun _ keys => Permutation_refl keys |}.

(** The same world with the other choices for configobj and the hash
    table: the keys of [self.props] are yielded last first, and
    [Section.pop] removes the key before it interpolates the value. *)
Definition world_rev : World :=
  {| dev_name := dev_name world;
     dev_cmd := dev_cmd world;
     dev_close_all := dev_close_all world;
     dev_reset_config := dev_reset_config world;
     construct := construct world;
     interpolate := interpolate world;
     interpolate_list := interpolate_list world;
     pop_deletes_first := true;
     key_order := fun _ keys => rev keys;
     key_order_perm := fun _ keys => Permutation_sym (Permutation_rev keys) |}.

(** The same world, where a device can be closed only once: the second
    [close_all] on it raises. *)
Definition world_once : World :=
  {| dev_name := dev_name world;
     dev_cmd := dev_cmd world;
     dev_close_all := fun tr h =>
       if closed tr h then Some (External "already closed")
       else dev_close_all world tr h;
     dev_reset_config := dev_reset_config world;
     construct := construct world;
     interpolate := interpolate world;
     interpolate_list := interpolate_list world;
     pop_deletes_first := false;
     key_order := key_order world;
     key_order_perm := key_order_perm world |}.

Definition device (oid : nat) (nm : string) : handle :=
  Obj oid "dev.Device" [("name", VStr nm)].

Definition d1 := device 0 "d1".
Definition d2 := device 1 "d2".
Definition d3 := device 2 "d3".
Definition d4 := device 3 "d4".

(** a new fixture, and fixtures that hold devices *)
Definition empty : Fixture := Fixture_init None None.
Definition four : Fixture := with_devs [d1; d2; d3; d4] empty.
Definition two_good : Fixture := with_devs [d3; d4] empty.
Definition bad_first : Fixture := with_devs [d1; d3] empty.
Definition bad_last : Fixture := with_devs [d3; d1] empty.

(** configurations *)
Definition one_device : section :=
  [("dev1", VSec [("type", VStr "Device")])].

Definition other_device : section :=
  [("dev2", VSec [("type", VStr "Device")])].

Definition two_devices : section :=
  [("dev1", VSec [("type", VStr "Device"); ("name", VStr "board")]);
   ("dev2", VSec [("type", VStr "HydraDevice")])].

(** a device after an option that is no section *)
Definition option_first : section :=
  [("port", VStr "/dev/ttyUSB0");
   ("dev1", VSec [("type", VStr "Device")])].

Definition device_with_conn : section :=
  [("dev1", VSec [("type", VStr "Device");
                  ("conns", VSec [("conn1", VSec [("type", VStr "SerialConnection");
                                                  ("port", VStr "/dev/ttyUSB0")])])])].

Definition unknown_type : value := VSec [("type", VStr "Toaster")].



Definition both_bcc : value :=
  VSec [("type", VStr "Device");
        ("bcc", VSec [("type", VStr "SerialConnection")]);
        ("bctrl", VSec [("type", VStr "SshConnection")])].

End Lab.

(** ** [_parent_dirs]

    The generator yields [path], then its parent directory, and so on, and
    ends after the first path that is its own parent.  [dirname] is
    [os.path.dirname].  The list is what the generator yields when it is
    run to its end, as [list(self._parent_dirs(...))] does; [None] is the
    model's own: the loop has not ended within the fuel. *)
Fixpoint _parent_dirs (dirname : string -> string) (fuel : nat) (path : string)
    : option (list string) :=
  match fuel with
  | O => None
  | S fuel' =>
      let mem := dirname path in
      if String.eqb path mem then Some [path]
      else match _parent_dirs dirname fuel' mem with
           | Some l => Some (path :: l)
           | None => None
           end
  end.

(** [posixpath.dirname], for running [_parent_dirs]: the part of the path
    up to its last slash, without the slashes at its end unless it is made
    of slashes only. *)
Module Posix.

(** the character [/] *)
Definition slash : Ascii.ascii := Ascii.ascii_of_nat 47.

Definition is_slash (c : Ascii.ascii) : bool := Ascii.eqb c slash.

Fixpoint drop_while (p : Ascii.ascii -> bool) (l : list Ascii.ascii)
    : list Ascii.ascii :=
  match l with
  | [] => []
  | c :: l' => if p c then drop_while p l' else l
  end.

Definition dirname (p : string) : string :=
  let head := drop_while (fun c => negb (is_slash c)) (rev (list_ascii_of_string p)) in
  let head := if forallb is_slash head then head else drop_while is_slash head in
  string_of_list_ascii (rev head).

End Posix.

(** ** The cache of [get_dev] *)

(** Every entry of [self._devs_dict] is filed under the name of its
    device. *)
Definition cache_named (w : World) (f : Fixture) : Prop :=
  forall s h, _devs_dict f !! s = Some h -> dev_name w h = s.

(** ** What a method leaves alone *)

(** A method that does nothing to the fixture but add events to the
    trace. *)
Definition traces_only {A} (m : M A) : Prop :=
  forall f, exists es, snd (m f) = emits es f.

(** Two fixtures with the same graph, cache, configuration and classes. *)
Definition same_graph (f f' : Fixture) : Prop :=
  devs f' = devs f /\ _devs_dict f' = _devs_dict f /\
  props f' = props f /\ classes f' = classes f.

(** ** Measures and invariants used in the proofs *)

(** The depth of a section, as a value. *)
Definition items_depth (d : section) : nat :=
  (fix go (l : list (string * value)) : nat :=
     match l with
     | [] => O
     | (_, v') :: l' => Nat.max (depth v') (go l')
     end) d.

(** [frame f f']: [f'] is [f] with more events in the trace and, maybe,
    other objects allocated. *)
Definition frame (f f' : Fixture) : Prop :=
  exists es n, f' = with_next_oid n (emits es f).

(** * Properties *)

(** ** The trace *)

Lemma emits_nil f : emits [] f = f.
Proof. destruct f; unfold emits; simpl. by rewrite app_nil_r. Qed.

Lemma emits_emits es1 es2 f : emits es2 (emits es1 f) = emits (es1 ++ es2) f.
Proof. unfold emits; simpl. by rewrite app_assoc. Qed.

Lemma emit_emits e es f : emits es (emit e f) = emits (e :: es) f.
Proof. unfold emit. by rewrite emits_emits. Qed.

Lemma close_all_calls_app tr1 tr2 :
  close_all_calls (tr1 ++ tr2) = (close_all_calls tr1 ++ close_all_calls tr2)%list.
Proof.
  induction tr1 as [|e tr1 IH]; [done|].
  destruct e; simpl; rewrite IH; done.
Qed.

Lemma reset_config_calls_app tr1 tr2 :
  reset_config_calls (tr1 ++ tr2)
  = (reset_config_calls tr1 ++ reset_config_calls tr2)%list.
Proof.
  induction tr1 as [|e tr1 IH]; [done|].
  destruct e; simpl; rewrite IH; done.
Qed.


Lemma close_all_calls_map ds : close_all_calls (map Call_close_all ds) = ds.
Proof. induction ds as [|d ds IH]; simpl; [done|by rewrite IH]. Qed.

Lemma reset_config_calls_map ds : reset_config_calls (map Call_reset_config ds) = ds.
Proof. induction ds as [|d ds IH]; simpl; [done|by rewrite IH]. Qed.

(** ** Loops that call every device *)

Section Loops.

Variable behaviour : list event -> handle -> option exn.
Variable ev : handle -> event.

Let body (dev : handle) : M (ctl unit) :=
  bind (call_void behaviour ev dev) (fun _ => ret Next).

(** When no call raises, the loop calls every device, in order. *)
Lemma for_call_void_ok ds :
  forall f,
    (forall tr h, In h ds -> behaviour tr h = None) ->
    for_ ds body f = (Ok None, emits (map ev ds) f).
Proof.
  induction ds as [|d ds IH]; intros f Hok.
  - simpl. by rewrite emits_nil.
  - simpl. unfold bind at 1. unfold body at 1, bind, call_void, ret.
    rewrite (Hok (trace f) d) by (by left).
    rewrite IH by (intros; apply Hok; by right).
    by rewrite emit_emits.
Qed.

(** The first call that raises ends the loop: the devices after it are
    not called. *)
Lemma for_call_void_raise pre d post e :
  forall f,
    (forall tr h, In h pre -> behaviour tr h = None) ->
    (forall tr, behaviour tr d = Some e) ->
    for_ (pre ++ d :: post) body f = (Raise e, emits (map ev (pre ++ [d])) f).
Proof.
  induction pre as [|p pre IH]; intros f Hok Hbad.
  - simpl. unfold bind at 1. unfold body at 1, bind, call_void, ret.
    by rewrite Hbad.
  - simpl. unfold bind at 1. unfold body at 1, bind, call_void, ret.
    rewrite (Hok (trace f) p) by (by left).
    rewrite IH; [|intros; apply Hok; by right|done].
    by rewrite emit_emits.
Qed.

(** Whatever the calls do, the loop calls the devices in order, up to
    and with the first one whose call raises. *)
Lemma for_call_void_prefix ds :
  forall f r f',
    for_ ds body f = (r, f') ->
    exists n,
      (n <= length ds)%nat /\
      f' = emits (map ev (take n ds)) f /\
      match r with
      | Ok _ => n = length ds
      | Raise _ => (1 <= n)%nat
      end.
Proof.
  induction ds as [|d ds IH]; intros f r f' H.
  - simpl in H. unfold ret in H. simplify_eq. exists O.
    split; [done|]. split; [by rewrite emits_nil|done].
  - simpl in H. unfold bind at 1 in H. unfold body at 1, bind, call_void, ret in H.
    destruct (behaviour (trace f) d) as [e|].
    + simplify_eq. exists 1%nat. split; [simpl; lia|]. split; [|done].
      by destruct ds.
    + destruct (IH _ _ _ H) as (n & Hn & -> & Hr). exists (S n).
      split; [simpl; lia|]. split; [by rewrite emit_emits|].
      destruct r; [by rewrite Hr|lia].
Qed.

End Loops.

(** ** [tear_down] *)

(** C5, as amended.  When the [close_all] of every device returns,
    [tear_down] calls [close_all] once on each device, in the order of
    [self.devs], and leaves [self.devs] empty; on an empty fixture it calls
    no [close_all] at all, so a second [tear_down] adds no call.  When the
    [close_all] of a device raises, the exception leaves [tear_down]: the
    devices after it are not closed and [self.devs] stays as it was. *)
Theorem tear_down_closes_each_once (w : World) (f : Fixture) :
  ((forall tr h, In h (devs f) -> dev_close_all w tr h = None) ->
   tear_down w f
   = (Ok tt,
      with_devs [] (emits (Log_debug Msg_teardown :: map Call_close_all (devs f)) f)) /\
   close_all_calls (trace (snd (tear_down w f)))
   = (close_all_calls (trace f) ++ devs f)%list /\
   close_all_calls (trace (snd (tear_down w (snd (tear_down w f)))))
   = close_all_calls (trace (snd (tear_down w f)))) /\
  (forall pre d post e,
     devs f = (pre ++ d :: post)%list ->
     (forall tr h, In h pre -> dev_close_all w tr h = None) ->
     (forall tr, dev_close_all w tr d = Some e) ->
     tear_down w f
     = (Raise e,
        emits (Log_debug Msg_teardown :: map Call_close_all (pre ++ [d])) f)).
Proof.
  assert (Hok : forall g,
    (forall tr h, In h (devs g) -> dev_close_all w tr h = None) ->
    tear_down w g
    = (Ok tt,
       with_devs [] (emits (Log_debug Msg_teardown :: map Call_close_all (devs g)) g))).
  { intros g Hg. unfold tear_down, log, modify, get_self.
    unfold bind at 1 2 3. simpl.
    unfold call_close_all. rewrite for_call_void_ok by exact Hg.
    by rewrite emit_emits. }
  split.
  - intros Hf. rewrite (Hok f Hf). split; [done|]. split.
    + simpl. rewrite close_all_calls_app. simpl.
      by rewrite close_all_calls_map.
    + cbn [snd]. rewrite Hok by (simpl; tauto). cbn [snd].
      change (trace (with_devs [] ?g)) with (trace g).
      unfold emits at 1. cbn [trace]. rewrite close_all_calls_app.
      simpl. by rewrite app_nil_r.
  - intros pre d post e Hdevs Hpre Hd.
    unfold tear_down, log, modify, get_self.
    unfold bind at 1 2 3. simpl. rewrite Hdevs.
    unfold call_close_all. rewrite (for_call_void_raise _ _ pre d post e) by done.
    by rewrite emit_emits.
Qed.

Lemma lab_good_devices_close tr h :
  In h [Lab.d3; Lab.d4] -> dev_close_all Lab.world tr h = None.
Proof. intros [<-|[<-|[]]]; reflexivity. Qed.

Lemma tear_down_closes_each_once_witness :
  (forall tr h, In h (devs Lab.two_good) -> dev_close_all Lab.world tr h = None) /\
  close_all_calls (trace (snd (tear_down Lab.world Lab.two_good))) = [Lab.d3; Lab.d4] /\
  devs (snd (tear_down Lab.world Lab.two_good)) = [] /\
  fst (tear_down Lab.world Lab.bad_first) = Raise (External "stuck").
Proof.
  split; [exact lab_good_devices_close|].
  destruct (tear_down_closes_each_once Lab.world Lab.two_good) as [Hok _].
  destruct (Hok lab_good_devices_close) as (Heq & Hcalls & _).
  split; [exact Hcalls|].
  split; [by rewrite Heq|].
  destruct (tear_down_closes_each_once Lab.world Lab.bad_first) as [_ Hbad].
  rewrite (Hbad [] Lab.d1 [Lab.d3] (External "stuck")); try done.
Defined.

(** C5, as stated, fails where a [close_all] raises: with devices [d1]
    (which cannot be closed) and [d3], [tear_down] raises after the call on
    [d1]; [d3] is never closed and both devices stay in [self.devs]. *)
Lemma tear_down_stops_at_failure :
  ~ (close_all_calls (trace (snd (tear_down Lab.world Lab.bad_first)))
     = [Lab.d1; Lab.d3] /\
     devs (snd (tear_down Lab.world Lab.bad_first)) = []).
Proof. intros [H _]. vm_compute in H. discriminate H. Qed.

(** ** [reset_config_all] *)

(** C8, as amended.  [reset_config_all] calls [reset_config] on the
    devices in the order of [self.devs]; on an empty fixture it logs a
    warning and returns; when no call raises, every device is reset once;
    when the [reset_config] of a device raises, the exception leaves
    [reset_config_all] and the devices after it are not reset. *)
Theorem reset_config_all_until_failure (w : World) (f : Fixture) :
  (devs f = [] ->
   reset_config_all w f = (Ok tt, emit (Log_warning Msg_no_devices) f)) /\
  (devs f <> [] ->
   (forall tr h, In h (devs f) -> dev_reset_config w tr h = None) ->
   reset_config_all w f = (Ok tt, emits (map Call_reset_config (devs f)) f)) /\
  (forall pre d post e,
     devs f = (pre ++ d :: post)%list ->
     (forall tr h, In h pre -> dev_reset_config w tr h = None) ->
     (forall tr, dev_reset_config w tr d = Some e) ->
     reset_config_all w f
     = (Raise e, emits (map Call_reset_config (pre ++ [d])) f) /\
     reset_config_calls (trace (snd (reset_config_all w f)))
     = (reset_config_calls (trace f) ++ pre ++ [d])%list).
Proof.
  split; [|split].
  - intros Hnil. unfold reset_config_all, warn_if_no_devs, get_self.
    unfold bind at 1 2. rewrite Hnil. unfold log_warning, modify.
    unfold bind at 1. cbn [devs emit emits]. rewrite Hnil. reflexivity.
  - intros Hne Hok. unfold reset_config_all, warn_if_no_devs, get_self.
    unfold bind at 1 2. destruct (devs f) as [|d ds] eqn:Hdevs; [done|].
    unfold ret at 1. unfold bind at 1 2. rewrite Hdevs.
    unfold call_reset_config. rewrite for_call_void_ok by exact Hok.
    reflexivity.
  - intros pre d post e Hdevs Hpre Hd.
    assert (Heq : reset_config_all w f
                  = (Raise e, emits (map Call_reset_config (pre ++ [d])) f)).
    { unfold reset_config_all, warn_if_no_devs, get_self.
      unfold bind at 1 2. rewrite Hdevs.
      destruct (pre ++ d :: post)%list as [|x xs] eqn:Hl.
      { by destruct pre. }
      unfold ret at 1. unfold bind at 1 2. rewrite Hdevs, <- Hl.
      unfold call_reset_config.
      by rewrite (for_call_void_raise _ _ pre d post e). }
    split; [exact Heq|]. rewrite Heq. cbn [snd emits trace].
    by rewrite reset_config_calls_app, reset_config_calls_map.
Qed.

Lemma lab_good_devices_reset tr h :
  In h [Lab.d3; Lab.d4] -> dev_reset_config Lab.world tr h = None.
Proof. intros [<-|[<-|[]]]; reflexivity. Qed.

Lemma reset_config_all_until_failure_witness :
  (forall tr h, In h (devs Lab.two_good) -> dev_reset_config Lab.world tr h = None) /\
  reset_config_all Lab.world Lab.two_good
  = (Ok tt, emits [Call_reset_config Lab.d3; Call_reset_config Lab.d4] Lab.two_good) /\
  reset_config_all Lab.world Lab.empty
  = (Ok tt, emit (Log_warning Msg_no_devices) Lab.empty) /\
  reset_config_calls (trace (snd (reset_config_all Lab.world Lab.bad_first)))
  = [Lab.d1].
Proof.
  split; [exact lab_good_devices_reset|].
  destruct (reset_config_all_until_failure Lab.world Lab.two_good) as (_ & Hok & _).
  split; [apply Hok; [done|exact lab_good_devices_reset]|].
  destruct (reset_config_all_until_failure Lab.world Lab.empty) as (Hnil & _).
  split; [by apply Hnil|].
  destruct (reset_config_all_until_failure Lab.world Lab.bad_first) as (_ & _ & Hbad).
  destruct (Hbad [] Lab.d1 [Lab.d3] (External "stuck")) as [_ Hcalls]; try done.
Defined.

(** C8, as stated, fails: with devices [d1] (whose [reset_config] raises)
    and [d3], the call raises and [d3] is not reset. *)
Lemma reset_config_all_stops_at_failure :
  ~ (fst (reset_config_all Lab.world Lab.bad_first) = Ok tt \/
     In Lab.d3 (reset_config_calls
                  (trace (snd (reset_config_all Lab.world Lab.bad_first))))).
Proof.
  vm_compute. intros [H|[H|[]]]; discriminate H.
Qed.

(** ** [get_dev] *)

(** C10.  An integer that is out of range for [self.devs] makes [get_dev]
    raise [IndexError], which is not an exception of the fixture layer; the
    fixture is left as it was. *)
Theorem get_dev_out_of_range (w : World) (f : Fixture) (i : Z) :
  (i >= Z.of_nat (length (devs f)) \/ i < - Z.of_nat (length (devs f))) ->
  get_dev w (VInt i) f = (Raise IndexError, f) /\
  is_AFixtureException IndexError = false.
Proof.
  intros Hi. split; [|done].
  unfold get_dev, try_except, bind, get_self, lift, list_getitem.
  destruct (i <? 0) eqn:Hneg.
  - apply Z.ltb_lt in Hneg.
    replace (0 <=? i + Z.of_nat (length (devs f))) with false; [done|].
    symmetry. apply Z.leb_gt. lia.
  - apply Z.ltb_ge in Hneg.
    replace (i <? Z.of_nat (length (devs f))) with false.
    + by rewrite andb_false_r.
    + symmetry. apply Z.ltb_ge. lia.
Qed.

Lemma get_dev_out_of_range_witness :
  (4 >= Z.of_nat (length (devs Lab.four)) \/ 4 < - Z.of_nat (length (devs Lab.four))) /\
  get_dev Lab.world (VInt 4) Lab.four = (Raise IndexError, Lab.four).
Proof.
  assert (H : 4 >= Z.of_nat (length (devs Lab.four))
              \/ 4 < - Z.of_nat (length (devs Lab.four))).
  { left. simpl. lia. }
  split; [exact H|].
  exact (proj1 (get_dev_out_of_range Lab.world Lab.four 4 H)).
Defined.

(** The scan of [get_dev] over devices none of which has the name. *)
Lemma get_dev_scan_unknown (w : World) (s : string) ds :
  forall names f,
    (forall d, In d ds -> dev_name w d <> s) ->
    get_dev_scan w (VStr s) ds names f
    = (Raise (WrongNameException (VStr s) (names ++ map (dev_name w) ds)), f).
Proof.
  induction ds as [|d ds IH]; intros names f Hno; simpl.
  - by rewrite app_nil_r.
  - destruct (String.eqb_spec (dev_name w d) s) as [Heq|_].
    + exfalso. apply (Hno d); [by left|done].
    + rewrite IH by (intros; apply Hno; by right).
      by rewrite <- app_assoc.
Qed.

(** A name that is in the cache is answered from the cache, whatever
    [self.devs] holds. *)
Lemma get_dev_cached (w : World) (f : Fixture) (s : string) (h : handle) :
  _devs_dict f !! s = Some h ->
  get_dev w (VStr s) f = (Ok h, f).
Proof.
  intros Hc. unfold get_dev, try_except, bind, get_self, lift. simpl.
  by rewrite Hc.
Qed.

(** X4.  A name that is neither in the cache nor carried by a device is
    refused with [WrongNameException], which carries the name asked for and
    the names of the devices of the current graph, in order; the fixture is
    left as it was. *)
Lemma get_dev_unknown_name (w : World) (f : Fixture) (s : string) :
  _devs_dict f !! s = None ->
  (forall d, In d (devs f) -> dev_name w d <> s) ->
  get_dev w (VStr s) f
  = (Raise (WrongNameException (VStr s) (map (dev_name w) (devs f))), f).
Proof.
  intros Hc Hno. unfold get_dev, try_except, bind, get_self, lift. simpl.
  rewrite Hc. simpl. by rewrite get_dev_scan_unknown.
Qed.

(** [tear_down] does not touch the cache. *)
Lemma tear_down_keeps_devs_dict (w : World) (f : Fixture) :
  _devs_dict (snd (tear_down w f)) = _devs_dict f.
Proof.
  unfold tear_down, log, modify, get_self. unfold bind at 1 2 3.
  cbn [devs emit emits].
  assert (H : forall ds g,
    _devs_dict (snd (for_ (A := unit) ds
       (fun device => bind (call_close_all w device) (fun _ => ret Next)) g))
    = _devs_dict g).
  { induction ds as [|d ds IH]; intros g; [done|].
    simpl. unfold bind at 1. unfold bind at 1. unfold call_close_all, call_void.
    destruct (dev_close_all w (trace g) d); [done|].
    unfold ret at 1. by rewrite IH. }
  match goal with
  | |- context [for_ ?ds ?b ?g] => specialize (H ds g); destruct (for_ ds b g) as [[[]|e] g']
  end; simpl in *; done.
Qed.

(** C3, on the code.  A fixture reads a configuration with one device
    [dev1]; [get_dev("dev1")] answers with the object built (identity 0)
    and caches it.  The fixture reads again: object 0 is closed and the new
    graph holds object 1.  [get_dev("dev1")] still answers with object 0.
    After a [tear_down] the graph is empty and carries no name, and
    [get_dev("dev1")] answers with object 0 instead of raising
    [WrongNameException]. *)
Theorem get_dev_answers_from_stale_cache :
  let old := Obj 0 "dev.Device" [("name", VStr "dev1")] in
  let new := Obj 1 "dev.Device" [("name", VStr "dev1")] in
  let f1 := snd (read Lab.world Lab.one_device Lab.empty) in
  let f2 := snd (get_dev Lab.world (VStr "dev1") f1) in
  let f3 := snd (read Lab.world Lab.one_device f2) in
  let f4 := snd (tear_down Lab.world f3) in
  devs f1 = [old] /\
  fst (get_dev Lab.world (VStr "dev1") f1) = Ok old /\
  fst (read Lab.world Lab.one_device f2) = Ok tt /\
  devs f3 = [new] /\
  close_all_calls (trace f3) = [old] /\
  fst (get_dev Lab.world (VStr "dev1") f3) = Ok old /\
  devs f4 = [] /\
  fst (get_dev Lab.world (VStr "dev1") f4) = Ok old.
Proof. vm_compute. repeat split; reflexivity. Qed.

(** ** [cmd_any], [cmd_all], [cmd_first] *)

(** C1, on the code.  With the devices [d1] and [d2], whose [cmd] raises,
    and [d3] and [d4], whose [cmd] returns, [cmd_any] raises
    [CantHandleException] right after the failure of [d1]: the only call of
    [cmd] is the one on [d1].  On an empty fixture it logs a warning and
    returns [None]. *)
Theorem cmd_any_raises_after_first_failure :
  let args := CmdArgs "ls" (Passed None) (Passed 30) (Passed None) in
  fst (cmd_any Lab.world "ls" None 30 None Lab.four)
  = Raise (CantHandleException "monk_tf.fixture:Fixture"
             [Lab.d1; Lab.d2; Lab.d3; Lab.d4] "ls") /\
  cmd_calls (trace (snd (cmd_any Lab.world "ls" None 30 None Lab.four)))
  = [(Lab.d1, args)] /\
  (forall tr, dev_cmd Lab.world tr Lab.d3 args = Ok "done by d3") /\
  cmd_any Lab.world "ls" None 30 None Lab.empty
  = (Ok None,
     emits [Log_debug (Msg_cmd_any "ls" None 30 None); Log_warning Msg_no_devices]
       Lab.empty).
Proof. vm_compute. repeat split; reflexivity. Qed.

(** C2, on the code.  With the devices [d3] and [d4], whose [cmd] returns,
    [cmd_all] returns the answer of [d3] alone and never calls [d4]; with
    [d1] first, whose [cmd] raises, the exception of [d1] leaves [cmd_all]
    and no other device is called. *)
Theorem cmd_all_returns_after_first_device :
  let args := CmdArgs "ls" (Passed None) (Passed 30) (Passed None) in
  fst (cmd_all Lab.world "ls" None 30 None Lab.two_good) = Ok (Some "done by d3") /\
  cmd_calls (trace (snd (cmd_all Lab.world "ls" None 30 None Lab.two_good)))
  = [(Lab.d3, args)] /\
  fst (cmd_all Lab.world "ls" None 30 None Lab.four) = Raise (External "timeout") /\
  cmd_calls (trace (snd (cmd_all Lab.world "ls" None 30 None Lab.four)))
  = [(Lab.d1, args)].
Proof. vm_compute. repeat split; reflexivity. Qed.

(** C9, on the code.  [cmd_first] passes only [msg] to the [cmd] of the
    first device: [expect], [timeout] and [login_timeout] are left to the
    device's defaults, where [cmd_any] passes all four.  On an empty
    fixture [cmd_first] raises [NoDeviceException]. *)
Theorem cmd_first_passes_msg_only :
  cmd_calls (trace (snd (cmd_first Lab.world "ls" (Some "$") 5 (Some 7) Lab.two_good)))
  = [(Lab.d3, CmdArgs "ls" Omitted Omitted Omitted)] /\
  cmd_calls (trace (snd (cmd_any Lab.world "ls" (Some "$") 5 (Some 7) Lab.two_good)))
  = [(Lab.d3, CmdArgs "ls" (Passed (Some "$")) (Passed 5) (Passed (Some 7)))] /\
  fst (cmd_first Lab.world "ls" (Some "$") 5 (Some 7) Lab.empty) = Raise NoDeviceException.
Proof. vm_compute. repeat split; reflexivity. Qed.

(** ** Ordered mappings *)

Lemma get_remove_eq k d : Dict.get k (Dict.remove k d) = None.
Proof.
  induction d as [|[k' v] d IH]; simpl; [done|].
  destruct (String.eqb k k') eqn:E; [done|]. simpl. by rewrite E.
Qed.

Lemma get_remove_ne k k' d : k <> k' -> Dict.get k (Dict.remove k' d) = Dict.get k d.
Proof.
  intros Hne. induction d as [|[k'' v] d IH]; simpl; [done|].
  destruct (String.eqb_spec k' k'') as [<-|Hne'].
  - rewrite IH. destruct (String.eqb_spec k k'); [done|done].
  - simpl. by rewrite IH.
Qed.

Lemma get_replace k k' v d :
  Dict.get k (Dict.replace k' v d)
  = if String.eqb k k' then (if Dict.mem k' d then Some v else None)
    else Dict.get k d.
Proof.
  unfold Dict.mem. induction d as [|[k'' v''] d IH]; simpl.
  - by destruct (String.eqb k k').
  - destruct (String.eqb_spec k' k'') as [<-|Hne']; simpl.
    + destruct (String.eqb_spec k k'); [done|done].
    + rewrite IH. destruct (String.eqb_spec k k') as [->|Hne].
      * by destruct (String.eqb_spec k' k'').
      * done.
Qed.

Lemma get_app k d1 d2 :
  Dict.get k (d1 ++ d2)%list
  = match Dict.get k d1 with Some v => Some v | None => Dict.get k d2 end.
Proof.
  induction d1 as [|[k' v'] d1 IH]; simpl; [done|].
  by destruct (String.eqb k k').
Qed.

Lemma get_add_scalar k k' v d :
  Dict.get k' d = None ->
  Dict.get k (Dict.add_scalar k' v d)
  = if String.eqb k k' then Some v else Dict.get k d.
Proof.
  induction d as [|[k'' v''] d IH]; intros Hno.
  - simpl. by destruct (String.eqb k k').
  - cbn [Dict.add_scalar]. simpl in Hno.
    destruct (String.eqb_spec k' k'') as [->|Hne']; [done|].
    destruct (forallb _ _).
    + cbn [Dict.get]. by destruct (String.eqb k k').
    + cbn [Dict.get]. rewrite IH by done.
      destruct (String.eqb_spec k k'') as [->|Hne''].
      * by destruct (String.eqb_spec k'' k').
      * done.
Qed.

Lemma get_set_eq k v d : Dict.get k (Dict.set k v d) = Some v.
Proof.
  unfold Dict.set, Dict.mem. destruct (Dict.get k d) as [v0|] eqn:Hk.
  - rewrite get_replace, String.eqb_refl. unfold Dict.mem. by rewrite Hk.
  - destruct (is_section v).
    + rewrite get_app, Hk. simpl. by rewrite String.eqb_refl.
    + rewrite get_add_scalar by done. by rewrite String.eqb_refl.
Qed.

Lemma get_set_ne k k' v d : k <> k' -> Dict.get k (Dict.set k' v d) = Dict.get k d.
Proof.
  intros Hne. apply String.eqb_neq in Hne.
  unfold Dict.set, Dict.mem. destruct (Dict.get k' d) as [v0|] eqn:Hk.
  - by rewrite get_replace, Hne.
  - destruct (is_section v).
    + rewrite get_app. simpl. rewrite Hne. by destruct (Dict.get k d).
    + rewrite get_add_scalar by done. by rewrite Hne.
Qed.

Lemma mem_get k d : Dict.mem k d = true <-> exists v, Dict.get k d = Some v.
Proof.
  unfold Dict.mem. destruct (Dict.get k d) as [v|].
  - split; [eauto|done].
  - split; [done|intros [? ?]; done].
Qed.

Lemma depth_VSec d : depth (VSec d) = S (items_depth d).
Proof. reflexivity. Qed.

Lemma items_depth_cons k v d :
  items_depth ((k, v) :: d) = Nat.max (depth v) (items_depth d).
Proof. reflexivity. Qed.

Lemma depth_get k d v : Dict.get k d = Some v -> (depth v <= items_depth d)%nat.
Proof.
  induction d as [|[k' v'] d IH]; simpl; [done|].
  fold (items_depth d).
  destruct (String.eqb k k'); intros H.
  - injection H as ->. lia.
  - specialize (IH H). lia.
Qed.

Lemma depth_remove k d : (items_depth (Dict.remove k d) <= items_depth d)%nat.
Proof.
  induction d as [|[k' v'] d IH]; [done|].
  cbn [Dict.remove]. destruct (String.eqb k k').
  - rewrite items_depth_cons. lia.
  - rewrite !items_depth_cons. lia.
Qed.

Lemma items_depth_app d1 d2 :
  items_depth (d1 ++ d2)%list = Nat.max (items_depth d1) (items_depth d2).
Proof.
  induction d1 as [|[k v] d1 IH]; [done|].
  change (((k, v) :: d1) ++ d2)%list with ((k, v) :: (d1 ++ d2))%list.
  rewrite !items_depth_cons, IH. lia.
Qed.

Lemma depth_set k v d :
  (items_depth (Dict.set k v d) <= Nat.max (depth v) (items_depth d))%nat.
Proof.
  unfold Dict.set. destruct (Dict.mem k d); [|destruct (is_section v)].
  - induction d as [|[k' v'] d IH]; [simpl; lia|].
    cbn [Dict.replace]. destruct (String.eqb k k').
    + rewrite !items_depth_cons. lia.
    + rewrite !items_depth_cons. lia.
  - rewrite items_depth_app.
    change (items_depth [(k, v)]) with (Nat.max (depth v) 0). lia.
  - induction d as [|[k' v'] d IH].
    + change (items_depth (Dict.add_scalar k v [])) with (Nat.max (depth v) 0). lia.
    + cbn [Dict.add_scalar]. destruct (forallb _ _).
      * rewrite !items_depth_cons. lia.
      * rewrite !items_depth_cons. lia.
Qed.

Lemma depth_item k v d : In (k, v) d -> (depth v <= items_depth d)%nat.
Proof.
  induction d as [|[k' v'] d IH]; [done|].
  rewrite items_depth_cons. intros [H|H].
  - injection H as -> ->. lia.
  - specialize (IH H). lia.
Qed.

(** ** What a parse leaves of the fixture *)

Lemma frame_refl f : frame f f.
Proof.
  exists [], (next_oid f). destruct f; unfold with_next_oid, emits; simpl.
  by rewrite app_nil_r.
Qed.

Lemma frame_trans f1 f2 f3 : frame f1 f2 -> frame f2 f3 -> frame f1 f3.
Proof.
  intros (es1 & n1 & ->) (es2 & n2 & ->). exists (es1 ++ es2)%list, n2.
  unfold with_next_oid, emits; simpl. by rewrite app_assoc.
Qed.

Lemma frame_emit e f : frame f (emit e f).
Proof.
  exists [e], (next_oid f). by destruct f.
Qed.


Lemma frame_props f f' : frame f f' -> props f' = props f.
Proof. by intros (es & n & ->). Qed.

Lemma frame_classes f f' : frame f f' -> classes f' = classes f.
Proof. by intros (es & n & ->). Qed.

(** ** Reading from a section of configobj *)

(** Strings stay strings and lists stay lists: a section that is read is
    the section that is stored. *)
Lemma cfg_read_section w tr sec k v x :
  cfg_read w tr sec k v = Ok (VSec x) -> v = VSec x.
Proof.
  unfold cfg_read. destruct v; try (by intros [= <-]).
  - destruct (has_percent s); [|done]. by destruct (interpolate w tr sec k s).
  - destruct (existsb has_percent l); [|done].
    by destruct (interpolate_list w tr sec k l).
Qed.

Lemma cfg_read_depth w tr sec k v v' :
  cfg_read w tr sec k v = Ok v' -> (depth v' <= depth v)%nat.
Proof.
  unfold cfg_read. destruct v; try (by intros [= <-]).
  - destruct (has_percent s); [|by intros [= <-]].
    destruct (interpolate w tr sec k s); [|done]. by intros [= <-].
  - destruct (existsb has_percent l); [|by intros [= <-]].
    destruct (interpolate_list w tr sec k l); [|done]. by intros [= <-].
Qed.

(** A value without [%] is read as it is stored. *)
Lemma cfg_read_plain w tr sec k v :
  has_cookie v = false -> cfg_read w tr sec k v = Ok v.
Proof.
  unfold cfg_read, has_cookie. destruct v; try done; by intros ->.
Qed.

(** What [section.pop(key)] can end in. *)
Lemma p_pop_cases w k s f r s' f' :
  p_pop w k s f = Some (r, s', f') ->
  f' = f /\
  ((exists v0 v, Dict.get k s = Some v0 /\ cfg_read w (trace f) s k v0 = Ok v /\
                 r = Ok v /\ s' = Dict.remove k s) \/
   (exists e, r = Raise e /\ (s' = s \/ s' = Dict.remove k s))).
Proof.
  unfold p_pop. destruct (Dict.get k s) as [v0|].
  - destruct (cfg_read w (trace f) s k v0) as [v|e] eqn:Hr; intros [= <- <- <-].
    + split; [done|]. left. by exists v0, v.
    + split; [done|]. right. exists e. split; [done|].
      destruct (pop_deletes_first w); eauto.
  - intros [= <- <- <-]. split; [done|]. right. eauto.
Qed.

Lemma p_pop_total w k s f : is_Some (p_pop w k s f).
Proof.
  unfold p_pop. destruct (Dict.get k s); [|done].
  by destruct (cfg_read w (trace f) s k v).
Qed.

(** ** The steps of [_parse_section] *)

Ltac p_unfold :=
  unfold parse_body, parse_new, parse_conns, parse_bcc, parse_bctrl, p_when,
    p_class, p_in, p_pop, p_set, p_section, pself, pcall, pbind, pret, praise,
    log, modify, get_self, lift, bind, call_new, Dict.mem in *.

Section Steps.

Variable w : World.
Variable rec : string -> value -> Fixture -> option (result handle * value * Fixture).

Hypothesis rec_frame :
  forall nm v f r v' f', rec nm v f = Some (r, v', f') -> frame f f'.

Lemma p_each_frame cs items :
  forall s f r s' f',
    p_each w rec cs items s f = Some (r, s', f') -> s' = s /\ frame f f'.
Proof.
  induction items as [|[k v] items IH]; intros s f r s' f' H; simpl in H.
  - p_unfold. simplify_eq. split; [done|apply frame_refl].
  - unfold pbind at 1 in H. unfold pself in H.
    destruct (cfg_read w (trace f) cs k v) as [v1|e];
      [|simplify_eq; split; [done|apply frame_refl]].
    unfold pbind at 1 in H. unfold pcall in H.
    destruct (rec k v1 f) as [[[[h|e] v'] f1]|] eqn:Hrec; [| |done].
    + apply rec_frame in Hrec. unfold pbind at 1 in H.
      destruct (p_each w rec cs items s f1) as [[[[hs|e] s1] f2]|] eqn:Hrest;
        [| |done].
      * apply IH in Hrest as [-> Hf]. p_unfold. simplify_eq.
        split; [done|by eapply frame_trans].
      * apply IH in Hrest as [-> Hf]. simplify_eq.
        split; [done|by eapply frame_trans].
    + apply rec_frame in Hrec. simplify_eq. done.
Qed.

Lemma parse_conns_keeps s f r s' f' :
  parse_conns w rec s f = Some (r, s', f') ->
  frame f f' /\ (items_depth s' <= items_depth s)%nat.
Proof.
  intros H. unfold parse_conns, p_when, p_in, Dict.mem in H.
  unfold pbind at 1 in H.
  destruct (Dict.get "conns" s) as [cs0|] eqn:Hcs.
  - pose proof (depth_remove "conns" s) as Hrm.
    unfold pbind at 1 in H.
    destruct (p_pop w "conns" s f) as [[[r0 s0] f0]|] eqn:Hpop; [|done].
    apply p_pop_cases in Hpop
      as [-> [(v0 & cs & _ & _ & -> & ->)|(e & -> & Hs0)]];
      [|simplify_eq; split; [apply frame_refl|by destruct Hs0 as [->| ->]]].
    unfold pbind at 1 in H. unfold pself, lift in H.
    destruct (iter_items cs) as [items|e];
      [|simplify_eq; split; [apply frame_refl|done]].
    unfold pbind at 1 in H.
    destruct (p_each w rec items items (Dict.remove "conns" s) f)
      as [[[[hs|e] s1] f1]|] eqn:He; [| |done].
    + apply p_each_frame in He as [-> Hf]. unfold p_set in H. simplify_eq.
      split; [done|].
      pose proof (depth_set "conns" (VObjs hs) (Dict.remove "conns" s)).
      simpl in *. lia.
    + apply p_each_frame in He as [-> Hf]. simplify_eq. done.
  - unfold pret in H. simplify_eq. split; [apply frame_refl|done].
Qed.

Lemma parse_bcc_keeps s f r s' f' :
  parse_bcc w rec s f = Some (r, s', f') ->
  frame f f' /\ (items_depth s' <= items_depth s)%nat.
Proof.
  intros H. unfold parse_bcc, p_when, p_in, Dict.mem in H.
  unfold pbind at 1 in H.
  destruct (Dict.get "bcc" s) as [bs0|] eqn:Hbs.
  - pose proof (depth_remove "bcc" s) as Hrm.
    unfold pbind at 1 in H. unfold pself, log, modify in H.
    unfold pbind at 1 in H.
    destruct (p_pop w "bcc" s _) as [[[r0 s0] f0]|] eqn:Hpop; [|done].
    apply p_pop_cases in Hpop
      as [-> [(v0 & bs & _ & _ & -> & ->)|(e & -> & Hs0)]];
      [|simplify_eq; split; [apply frame_emit|by destruct Hs0 as [->| ->]]].
    unfold pbind at 1 in H. unfold pcall in H.
    destruct (rec "bcc" bs _) as [[[[h|e] v'] f1]|] eqn:Hrec; [| |done].
    + apply rec_frame in Hrec. unfold p_set in H. simplify_eq.
      split; [eapply frame_trans; [apply frame_emit|done]|].
      pose proof (depth_set "bcc" (VObj h) (Dict.remove "bcc" s)).
      simpl in *. lia.
    + apply rec_frame in Hrec. simplify_eq.
      split; [eapply frame_trans; [apply frame_emit|done]|done].
  - unfold pret in H. simplify_eq. split; [apply frame_refl|done].
Qed.

Lemma parse_bctrl_keeps s f r s' f' :
  parse_bctrl w rec s f = Some (r, s', f') ->
  frame f f' /\ (items_depth s' <= items_depth s)%nat.
Proof.
  intros H. unfold parse_bctrl, p_when, p_in, Dict.mem in H.
  unfold pbind at 1 in H.
  destruct (Dict.get "bctrl" s) as [bs0|] eqn:Hbs.
  - pose proof (depth_remove "bctrl" s) as Hrm.
    unfold pbind at 1 in H.
    destruct (p_pop w "bctrl" s f) as [[[r0 s0] f0]|] eqn:Hpop; [|done].
    apply p_pop_cases in Hpop
      as [-> [(v0 & bs & _ & _ & -> & ->)|(e & -> & Hs0)]];
      [|simplify_eq; split; [apply frame_refl|by destruct Hs0 as [->| ->]]].
    unfold pbind at 1 in H. unfold pcall in H.
    destruct (rec "bctrl" bs _) as [[[[h|e] v'] f1]|] eqn:Hrec; [| |done].
    + apply rec_frame in Hrec. unfold p_set in H. simplify_eq.
      split; [done|].
      pose proof (depth_set "bcc" (VObj h) (Dict.remove "bctrl" s)).
      simpl in *. lia.
    + apply rec_frame in Hrec. simplify_eq. done.
  - unfold pret in H. simplify_eq. split; [apply frame_refl|done].
Qed.

Lemma parse_new_keeps nm ty s f r s' f' :
  parse_new w nm ty s f = Some (r, s', f') ->
  frame f f' /\ (items_depth s' <= items_depth s)%nat.
Proof.
  intros H. p_unfold.
  assert (Hd : (items_depth (Dict.set "name" (VStr nm) s) <= items_depth s)%nat).
  { pose proof (depth_set "name" (VStr nm) s). simpl in *. lia. }
  destruct (construct w _ ty _) eqn:Hc; simplify_eq; (split; [|done]).
  - exists [Log_debug (Msg_load_section ty (Dict.set "name" (VStr nm) s));
            Call_new ty (Dict.set "name" (VStr nm) s)], (next_oid f).
    destruct f; unfold with_next_oid, emit, emits; simpl.
    by rewrite <- app_assoc.
  - exists [Log_debug (Msg_load_section ty (Dict.set "name" (VStr nm) s));
            Call_new ty (Dict.set "name" (VStr nm) s)], (S (next_oid f)).
    destruct f; unfold with_next_oid, emit, emits; simpl.
    by rewrite <- app_assoc.
Qed.

End Steps.

Lemma parse_body_keeps w rec nm s f r s' f' :
  (forall nm v f r v' f', rec nm v f = Some (r, v', f') -> frame f f') ->
  parse_body w rec nm s f = Some (r, s', f') ->
  frame f f' /\ (items_depth s' <= items_depth s)%nat.
Proof.
  intros Hrec H. unfold parse_body in H.
  pose proof (depth_remove "type" s) as Hd0.
  unfold pbind at 1 in H.
  destruct (p_pop w "type" s f) as [[[r0 s0] f0]|] eqn:Hpop; [|done].
  apply p_pop_cases in Hpop
    as [-> [(v0 & tag & _ & _ & -> & ->)|(e & -> & Hs0)]];
    [|simplify_eq; split; [apply frame_refl|by destruct Hs0 as [->| ->]]].
  unfold pbind at 1 in H. unfold p_class, pself, bind, get_self, lift in H.
  destruct (dict_getitem (classes f) tag) as [ty|e];
    [|simplify_eq; split; [apply frame_refl|done]].
  unfold pbind at 1 in H.
  destruct (parse_conns w rec _ f) as [[[[[]|e] s1] f1]|] eqn:H1; [| |done];
    apply (parse_conns_keeps w rec Hrec) in H1 as [Hf1 Hd1];
    [|simplify_eq; split; [done|lia]].
  unfold pbind at 1 in H.
  destruct (parse_bcc w rec s1 f1) as [[[[[]|e] s2] f2]|] eqn:H2; [| |done];
    apply (parse_bcc_keeps w rec Hrec) in H2 as [Hf2 Hd2];
    [|simplify_eq; split; [by eapply frame_trans|lia]].
  unfold pbind at 1 in H.
  destruct (parse_bctrl w rec s2 f2) as [[[[[]|e] s3] f3]|] eqn:H3; [| |done];
    apply (parse_bctrl_keeps w rec Hrec) in H3 as [Hf3 Hd3];
    [|simplify_eq; split; [do 2 (eapply frame_trans; [|done]); done|lia]].
  apply parse_new_keeps in H as [Hf4 Hd4].
  split; [|lia].
  do 3 (eapply frame_trans; [|done]). done.
Qed.

(** A parse changes nothing of the fixture but the trace and the
    allocation counter, and does not deepen the section. *)
Lemma parse_section_keeps w fuel :
  forall nm v f r v' f',
    _parse_section w fuel nm v f = Some (r, v', f') ->
    frame f f' /\ (depth v' <= depth v)%nat.
Proof.
  induction fuel as [|fuel IH]; intros nm v f r v' f' H; [done|].
  simpl in H. destruct v as [s|i|l|sec|h|hs];
    try (simplify_eq; split; [apply frame_refl|done]).
  destruct (parse_body w _ nm sec _) as [[[r0 s1] f1]|] eqn:Hb; [|done].
  apply parse_body_keeps in Hb as [Hf Hd].
  - simplify_eq. split.
    + eapply frame_trans; [apply frame_emit|done].
    + rewrite !depth_VSec. lia.
  - intros. by eapply IH.
Qed.

(** *** Enough fuel *)

Lemma p_each_total w rec cs items :
  forall s f,
    (forall k v v' g tr, In (k, v) items -> cfg_read w tr cs k v = Ok v' ->
                         is_Some (rec k v' g)) ->
    is_Some (p_each w rec cs items s f).
Proof.
  induction items as [|[k v] items IH]; intros s f Hrec; simpl; [done|].
  unfold pbind at 1. unfold pself.
  destruct (cfg_read w (trace f) cs k v) as [v1|e] eqn:Hread; [|done].
  unfold pbind at 1. unfold pcall.
  destruct (Hrec k v v1 f (trace f)) as [[[r v'] f1] ->]; [by left|done|].
  destruct r as [h|e]; [|done].
  unfold pbind at 1.
  destruct (IH s f1) as [[[r hs] f2] ->];
    [intros ? ? ? ? ? ?; apply Hrec; by right|].
  destruct r; done.
Qed.

(** With more fuel than the section is deep, the parse ends. *)
Lemma parse_section_total w fuel :
  forall nm v f, (depth v < fuel)%nat -> is_Some (_parse_section w fuel nm v f).
Proof.
  induction fuel as [|fuel IH]; intros nm v f Hd; [lia|].
  simpl. destruct v as [s|i|l|sec|h|hs]; try done.
  rewrite depth_VSec in Hd.
  assert (Hrec : forall k v, Dict.get k sec = Some v ->
            forall nm g, is_Some (_parse_section w fuel nm v g)).
  { intros k v Hk nm' g. apply IH. apply depth_get in Hk. lia. }
  set (f0 := emit _ f).
  enough (is_Some (parse_body w (_parse_section w fuel) nm sec f0)) as [[[r s1] f1] ->];
    [done|].
  assert (Hpop : forall k s g r0 s0 g0 v,
            p_pop w k s g = Some (r0, s0, g0) -> r0 = Ok v ->
            (depth v <= items_depth s)%nat /\ s0 = Dict.remove k s /\ g0 = g).
  { intros k s g r0 s0 g0 v Hp ->.
    apply p_pop_cases in Hp as [-> [(v0 & v1 & Hg & Hr & [= <-] & ->)|(e & [=] & _)]].
    apply depth_get in Hg. apply cfg_read_depth in Hr. split; [lia|done]. }
  unfold parse_body. unfold pbind at 1.
  destruct (p_pop_total w "type" sec f0) as [[[r0 s0] g0] Hp0]. rewrite Hp0.
  destruct r0 as [tag|e]; [|done].
  destruct (Hpop _ _ _ _ _ _ _ Hp0 eq_refl) as (_ & -> & ->).
  unfold pbind at 1. unfold p_class, pself, bind, get_self, lift.
  destruct (dict_getitem (classes f0) tag) as [ty|e]; [|done].
  pose proof (depth_remove "type" sec) as Hd0.
  (* conns *)
  unfold pbind at 1.
  assert (H1 : is_Some (parse_conns w (_parse_section w fuel)
                          (Dict.remove "type" sec) f0)).
  { unfold parse_conns, p_when, p_in, Dict.mem. unfold pbind at 1.
    destruct (Dict.get "conns" (Dict.remove "type" sec)) as [cs0|] eqn:Hcs; [|done].
    unfold pbind at 1.
    destruct (p_pop_total w "conns" (Dict.remove "type" sec) f0)
      as [[[r1 s1] g1] Hp1]. rewrite Hp1.
    destruct r1 as [cs|e]; [|done].
    destruct (Hpop _ _ _ _ _ _ _ Hp1 eq_refl) as (Hdc & -> & ->).
    unfold pbind at 1. unfold pself, lift.
    destruct (iter_items cs) as [items|e] eqn:Hit; [|done].
    unfold pbind at 1.
    destruct (p_each_total w (_parse_section w fuel) items items
                (Dict.remove "conns" (Dict.remove "type" sec)) f0) as [[[r hs] f1] ->].
    - intros k v v' g tr Hin Hread. apply IH.
      apply cfg_read_depth in Hread.
      destruct cs as [| | |items0| |]; simpl in Hit;
        try (repeat case_match; simplify_eq; done).
      simplify_eq. apply depth_item in Hin. rewrite depth_VSec in Hdc. lia.
    - destruct r; done. }
  destruct H1 as [[[r1 s1] f1] H1]. rewrite H1.
  destruct r1 as [[]|e]; [|done].
  apply parse_conns_keeps in H1 as [_ Hd1];
    [|intros; by eapply parse_section_keeps].
  (* bcc *)
  unfold pbind at 1.
  assert (H2 : is_Some (parse_bcc w (_parse_section w fuel) s1 f1)).
  { unfold parse_bcc, p_when, p_in, Dict.mem. unfold pbind at 1.
    destruct (Dict.get "bcc" s1) as [bs0|] eqn:Hbs; [|done].
    unfold pbind at 1. unfold pself, log, modify.
    unfold pbind at 1.
    destruct (p_pop_total w "bcc" s1 (emit (Log_debug Msg_deprecated) f1))
      as [[[r2 s2] g2] Hp2]. rewrite Hp2.
    destruct r2 as [bs|e]; [|done].
    destruct (Hpop _ _ _ _ _ _ _ Hp2 eq_refl) as (Hdb & -> & ->).
    unfold pbind at 1. unfold pcall.
    destruct (IH "bcc" bs (emit (Log_debug Msg_deprecated) f1)) as [[[r v'] f2] ->].
    - lia.
    - destruct r; done. }
  destruct H2 as [[[r2 s2] f2] H2]. rewrite H2.
  destruct r2 as [[]|e]; [|done].
  apply parse_bcc_keeps in H2 as [_ Hd2];
    [|intros; by eapply parse_section_keeps].
  (* bctrl *)
  unfold pbind at 1.
  assert (H3 : is_Some (parse_bctrl w (_parse_section w fuel) s2 f2)).
  { unfold parse_bctrl, p_when, p_in, Dict.mem. unfold pbind at 1.
    destruct (Dict.get "bctrl" s2) as [bs0|] eqn:Hbs; [|done].
    unfold pbind at 1.
    destruct (p_pop_total w "bctrl" s2 f2) as [[[r3 s3] g3] Hp3]. rewrite Hp3.
    destruct r3 as [bs|e]; [|done].
    destruct (Hpop _ _ _ _ _ _ _ Hp3 eq_refl) as (Hdb & -> & ->).
    unfold pbind at 1. unfold pcall.
    destruct (IH "bctrl" bs f2) as [[[r v'] f3] ->].
    - lia.
    - destruct r; done. }
  destruct H3 as [[[r3 s3] f3] H3]. rewrite H3.
  destruct r3 as [[]|e]; [|done].
  p_unfold. repeat case_match; done.
Qed.

Lemma parse_devs_total w fuel ds :
  forall f,
    (forall d v, Dict.get d (props f) = Some v -> (depth v < fuel)%nat) ->
    is_Some (parse_devs w fuel ds f).
Proof.
  induction ds as [|d ds IH]; intros f Hf; simpl; [done|].
  unfold cfg_getitem. destruct (Dict.get d (props f)) as [v0|] eqn:Hd; [|done].
  destruct (cfg_read w (trace f) (props f) d v0) as [sec|e0] eqn:Hread; [|done].
  pose proof (cfg_read_depth _ _ _ _ _ _ Hread) as Hdr.
  specialize (Hf _ _ Hd) as Hd0.
  destruct (parse_section_total w fuel d sec f) as [[[r sec'] f1] Hp]; [lia|].
  rewrite Hp. apply parse_section_keeps in Hp as [Hfr Hdep].
  destruct r as [h|e]; [|done].
  match goal with |- context [parse_devs w fuel ds ?g] =>
    destruct (IH g) as [[[hs|e] f3] ->]; [|done|done] end.
  assert (Hsame : forall d' v, Dict.get d' (props f1) = Some v -> (depth v < fuel)%nat).
  { intros d' v. rewrite (frame_props _ _ Hfr). apply Hf. }
  destruct sec; try exact Hsame.
  intros d' v. cbn [props with_props]. rewrite (frame_props _ _ Hfr).
  destruct (String.eqb_spec d' d) as [->|Hne].
  - rewrite get_set_eq. intros [= <-]. lia.
  - rewrite get_set_ne by done. apply Hf.
Qed.

(** The fuel that [_initialize] gives is enough: the parse of
    [self.props] ends. *)
Lemma _initialize_fuel w f :
  is_Some (parse_devs w (depth (VSec (props f)))
             (key_order w (trace f) (Dict.keys (props f))) f).
Proof.
  apply parse_devs_total. intros d v Hd.
  apply depth_get in Hd. rewrite depth_VSec. lia.
Qed.

(** *** The steps, when they succeed *)

Section StepsOk.

Variable w : World.
Variable rec : string -> value -> Fixture -> option (result handle * value * Fixture).

(** Only a section can be parsed into an object. *)
Hypothesis rec_section :
  forall nm v f h v' f', rec nm v f = Some (Ok h, v', f') -> exists x, v = VSec x.

Lemma p_each_section cs items :
  forall s f r s' f', p_each w rec cs items s f = Some (r, s', f') -> s' = s.
Proof.
  induction items as [|[k v] items IH]; intros s f r s' f' H; simpl in H.
  - unfold pret in H. by simplify_eq.
  - unfold pbind at 1 in H. unfold pself in H.
    destruct (cfg_read w (trace f) cs k v) as [v1|e]; [|by simplify_eq].
    unfold pbind at 1 in H. unfold pcall in H.
    destruct (rec k v1 f) as [[[[h|e] v'] f1]|]; [| |done]; [|by simplify_eq].
    unfold pbind at 1 in H.
    destruct (p_each w rec cs items s f1) as [[[[hs|e] s1] f2]|] eqn:Hrest;
      [| |done];
      apply IH in Hrest as ->; unfold pret in H; by simplify_eq.
Qed.

(** A [pop] that is followed by a parse of what it returned. *)
Lemma p_pop_ok k s f v s' f' :
  p_pop w k s f = Some (Ok v, s', f') ->
  exists v0, Dict.get k s = Some v0 /\ cfg_read w (trace f) s k v0 = Ok v /\
             s' = Dict.remove k s /\ f' = f.
Proof.
  intros H. apply p_pop_cases in H
    as [-> [(v0 & v1 & Hg & Hr & [= <-] & ->)|(e & [=] & _)]].
  by exists v0.
Qed.

Lemma parse_conns_ok s f s' f' :
  parse_conns w rec s f = Some (Ok tt, s', f') ->
  match Dict.get "conns" s with
  | None => s' = s /\ f' = f
  | Some cs0 =>
      exists cs items hs,
        cfg_read w (trace f) s "conns" cs0 = Ok cs /\
        iter_items cs = Ok items /\
        p_each w rec items items (Dict.remove "conns" s) f
        = Some (Ok hs, Dict.remove "conns" s, f') /\
        s' = Dict.set "conns" (VObjs hs) (Dict.remove "conns" s)
  end.
Proof.
  intros H. unfold parse_conns, p_when, p_in, Dict.mem in H.
  unfold pbind at 1 in H.
  destruct (Dict.get "conns" s) as [cs0|] eqn:Hcs.
  - unfold pbind at 1 in H.
    destruct (p_pop w "conns" s f) as [[[[cs|e] s0] f0]|] eqn:Hpop; [| |done];
      [|done].
    apply p_pop_ok in Hpop as (v0 & Hg & Hr & -> & ->).
    rewrite Hcs in Hg. injection Hg as <-.
    unfold pbind at 1 in H. unfold pself, lift in H.
    destruct (iter_items cs) as [items|e] eqn:Hit; [|done].
    unfold pbind at 1 in H.
    destruct (p_each w rec items items (Dict.remove "conns" s) f)
      as [[[[hs|e] s1] f1]|] eqn:He; [| |done]; [|done].
    pose proof (p_each_section _ _ _ _ _ _ _ He) as ->.
    unfold p_set in H. simplify_eq. by exists cs, items, hs.
  - unfold pret in H. by simplify_eq.
Qed.

Lemma parse_bcc_ok s f s' f' :
  parse_bcc w rec s f = Some (Ok tt, s', f') ->
  match Dict.get "bcc" s with
  | None => s' = s /\ f' = f
  | Some bs =>
      exists h v',
        rec "bcc" bs (emit (Log_debug Msg_deprecated) f) = Some (Ok h, v', f') /\
        s' = Dict.set "bcc" (VObj h) (Dict.remove "bcc" s)
  end.
Proof.
  intros H. unfold parse_bcc, p_when, p_in, Dict.mem in H.
  unfold pbind at 1 in H.
  destruct (Dict.get "bcc" s) as [bs0|] eqn:Hbs.
  - unfold pbind at 1 in H. unfold pself, log, modify in H.
    unfold pbind at 1 in H.
    destruct (p_pop w "bcc" s _) as [[[[bs|e] s0] f0]|] eqn:Hpop; [| |done];
      [|done].
    apply p_pop_ok in Hpop as (v0 & Hg & Hr & -> & ->).
    rewrite Hbs in Hg. injection Hg as <-.
    unfold pbind at 1 in H. unfold pcall in H.
    destruct (rec "bcc" bs _) as [[[[h|e] v'] f1]|] eqn:Hrec; [| |done]; [|done].
    destruct (rec_section _ _ _ _ _ _ Hrec) as [x ->].
    apply cfg_read_section in Hr as ->.
    unfold p_set in H. simplify_eq. by exists h, v'.
  - unfold pret in H. by simplify_eq.
Qed.

Lemma parse_bctrl_ok s f s' f' :
  parse_bctrl w rec s f = Some (Ok tt, s', f') ->
  match Dict.get "bctrl" s with
  | None => s' = s /\ f' = f
  | Some bs =>
      exists h v',
        rec "bctrl" bs f = Some (Ok h, v', f') /\
        s' = Dict.set "bcc" (VObj h) (Dict.remove "bctrl" s)
  end.
Proof.
  intros H. unfold parse_bctrl, p_when, p_in, Dict.mem in H.
  unfold pbind at 1 in H.
  destruct (Dict.get "bctrl" s) as [bs0|] eqn:Hbs.
  - unfold pbind at 1 in H.
    destruct (p_pop w "bctrl" s f) as [[[[bs|e] s0] f0]|] eqn:Hpop; [| |done];
      [|done].
    apply p_pop_ok in Hpop as (v0 & Hg & Hr & -> & ->).
    rewrite Hbs in Hg. injection Hg as <-.
    unfold pbind at 1 in H. unfold pcall in H.
    destruct (rec "bctrl" bs _) as [[[[h|e] v'] f1]|] eqn:Hrec; [| |done]; [|done].
    destruct (rec_section _ _ _ _ _ _ Hrec) as [x ->].
    apply cfg_read_section in Hr as ->.
    unfold p_set in H. simplify_eq. by exists h, v'.
  - unfold pret in H. by simplify_eq.
Qed.

Lemma parse_new_ok nm ty s f h s' f' :
  parse_new w nm ty s f = Some (Ok h, s', f') ->
  s' = Dict.set "name" (VStr nm) s /\
  h = Obj (next_oid f) ty s' /\
  f' = with_next_oid (S (next_oid f))
         (emits [Log_debug (Msg_load_section ty s'); Call_new ty s'] f).
Proof.
  intros H. p_unfold.
  destruct (construct w _ ty _) eqn:Hc; simplify_eq.
  split; [done|]. split; [done|].
  destruct f; unfold with_next_oid, emit, emits; simpl.
  by rewrite <- app_assoc.
Qed.

Lemma parse_body_ok nm s f h s' f' :
  parse_body w rec nm s f = Some (Ok h, s', f') ->
  exists tag0 tag ty s1 f1 s2 f2 s3 f3,
    Dict.get "type" s = Some tag0 /\
    cfg_read w (trace f) s "type" tag0 = Ok tag /\
    dict_getitem (classes f) tag = Ok ty /\
    parse_conns w rec (Dict.remove "type" s) f = Some (Ok tt, s1, f1) /\
    parse_bcc w rec s1 f1 = Some (Ok tt, s2, f2) /\
    parse_bctrl w rec s2 f2 = Some (Ok tt, s3, f3) /\
    parse_new w nm ty s3 f3 = Some (Ok h, s', f').
Proof.
  intros H. unfold parse_body in H.
  unfold pbind at 1 in H.
  destruct (p_pop w "type" s f) as [[[[tag|e] s0] f0]|] eqn:Hpop; [| |done];
    [|done].
  apply p_pop_ok in Hpop as (tag0 & Hg & Hr & -> & ->).
  unfold pbind at 1 in H. unfold p_class, pself, bind, get_self, lift in H.
  destruct (dict_getitem (classes f) tag) as [ty|e] eqn:Hty; [|done].
  unfold pbind at 1 in H.
  destruct (parse_conns w rec _ f) as [[[[[]|e] s1] f1]|] eqn:H1; [| |done]; [|done].
  unfold pbind at 1 in H.
  destruct (parse_bcc w rec s1 f1) as [[[[[]|e] s2] f2]|] eqn:H2; [| |done]; [|done].
  unfold pbind at 1 in H.
  destruct (parse_bctrl w rec s2 f2) as [[[[[]|e] s3] f3]|] eqn:H3; [| |done]; [|done].
  by exists tag0, tag, ty, s1, f1, s2, f2, s3, f3.
Qed.

End StepsOk.

Lemma parse_section_of_section w fuel nm v f h v' f' :
  _parse_section w fuel nm v f = Some (Ok h, v', f') -> exists x, v = VSec x.
Proof.
  destruct fuel as [|fuel]; [done|]. destruct v; simpl; try done. eauto.
Qed.

Lemma parse_section_ok w fuel nm sec f h v' f' :
  _parse_section w (S fuel) nm (VSec sec) f = Some (Ok h, v', f') ->
  exists sec',
    v' = VSec sec' /\
    parse_body w (_parse_section w fuel) nm sec
      (emit (Log_debug (Msg_parse_section nm (Dict.keys sec))) f)
    = Some (Ok h, sec', f').
Proof.
  simpl. intros H.
  destruct (parse_body w _ nm sec _) as [[[r s1] f1]|]; [|done].
  simplify_eq. by exists s1.
Qed.

Ltac dict_simpl :=
  repeat first
    [ rewrite get_set_eq
    | rewrite get_remove_eq
    | rewrite get_set_ne by done
    | rewrite get_remove_ne by done ].

(** ** [_parse_section]: the type of a section *)

Lemma parse_section_no_type (w : World) (fuel : nat) (nm : string)
    (sec : section) (f : Fixture) :
  Dict.get "type" sec = None ->
  _parse_section w (S fuel) nm (VSec sec) f
  = Some (Raise (KeyError (VStr "type")), VSec sec,
          emit (Log_debug (Msg_parse_section nm (Dict.keys sec))) f).
Proof.
  intros Hno. simpl. unfold parse_body. unfold pbind at 1. unfold p_pop.
  by rewrite Hno.
Qed.






(** ** [_parse_section]: what is left of the section *)

(** *** The object a parse returns *)

(** The object is of the class registered for the type of the section, it
    is named after the section, and the section is left as the keyword
    arguments of the object, without ["type"]. *)
Lemma parse_section_object w fuel nm sec f h v' f' :
  _parse_section w fuel nm (VSec sec) f = Some (Ok h, v', f') ->
  exists stored tag,
    Dict.get "type" sec = Some stored /\
    cfg_read w (trace (emit (Log_debug (Msg_parse_section nm (Dict.keys sec))) f))
      sec "type" stored = Ok tag /\
    dict_getitem (classes f) tag = Ok (cls_of h) /\
    v' = VSec (kwargs_of h) /\
    Dict.get "type" (kwargs_of h) = None /\
    Dict.get "name" (kwargs_of h) = Some (VStr nm).
Proof.
  destruct fuel as [|fuel]; [done|]. intros H.
  apply parse_section_ok in H as (sec' & -> & H).
  apply parse_body_ok in H
    as (stored & tag & ty & s1 & f1 & s2 & f2 & s3 & f3
        & Htag & Hread & Hty & H1 & H2 & H3 & H4).
  apply parse_conns_ok in H1.
  apply parse_bcc_ok in H2; [|apply parse_section_of_section].
  apply parse_bctrl_ok in H3; [|apply parse_section_of_section].
  apply parse_new_ok in H4 as (-> & -> & _).
  exists stored, tag. cbn [kwargs_of cls_of].
  split; [done|]. split; [done|]. split; [done|]. split; [done|].
  split; [|by dict_simpl].
  assert (Hty1 : Dict.get "type" s1 = None).
  { destruct (Dict.get "conns" (Dict.remove "type" sec)).
    - destruct H1 as (? & ? & ? & _ & _ & _ & ->). by dict_simpl.
    - destruct H1 as [-> _]. by dict_simpl. }
  assert (Hty2 : Dict.get "type" s2 = None).
  { destruct (Dict.get "bcc" s1).
    - destruct H2 as (? & ? & _ & ->). by dict_simpl.
    - by destruct H2 as [-> _]. }
  dict_simpl. destruct (Dict.get "bctrl" s2).
  - destruct H3 as (? & ? & _ & ->). by dict_simpl.
  - by destruct H3 as [-> _].
Qed.

(** *** A second build *)

Lemma keys_set d v p :
  is_Some (Dict.get d p) -> Dict.keys (Dict.set d v p) = Dict.keys p.
Proof.
  intros [x Hx]. unfold Dict.set, Dict.mem. rewrite Hx. clear x Hx.
  induction p as [|[k x] p IH]; simpl; [done|].
  destruct (String.eqb_spec d k) as [->|Hne]; [done|].
  simpl. by rewrite IH.
Qed.

(** After a successful parse of the sections under the keys [ds], each of
    them is without ["type"], and so is every section that was without
    ["type"] before. *)
Lemma parse_devs_consumes w fuel ds :
  forall f hs f',
    parse_devs w fuel ds f = Some (Ok hs, f') ->
    Dict.keys (props f') = Dict.keys (props f) /\
    (forall d, In d ds ->
       exists s, Dict.get d (props f') = Some (VSec s) /\ Dict.get "type" s = None) /\
    (forall d s, Dict.get d (props f) = Some (VSec s) -> Dict.get "type" s = None ->
       Dict.get d (props f') = Some (VSec s)).
Proof.
  induction ds as [|d ds IH]; intros f hs f' H; simpl in H.
  - simplify_eq. repeat split; [by intros ? []|done].
  - unfold cfg_getitem in H.
    destruct (Dict.get d (props f)) as [v0|] eqn:Hd; [|done].
    destruct (cfg_read w (trace f) (props f) d v0) as [sec|e0] eqn:Hread; [|done].
    destruct (_parse_section w fuel d sec f) as [[[[h|e] sec'] f1]|] eqn:Hp;
      [| |done]; [|done].
    pose proof (parse_section_keeps _ _ _ _ _ _ _ _ Hp) as [Hfr _].
    apply frame_props in Hfr.
    destruct (parse_section_of_section _ _ _ _ _ _ _ _ Hp) as [s0 ->].
    apply cfg_read_section in Hread as ->.
    destruct (parse_section_object _ _ _ _ _ _ _ _ Hp)
      as (stored0 & tag0 & _ & _ & _ & -> & Hty' & _).
    set (s' := kwargs_of h) in *.
    assert (Hty0 : Dict.get "type" s0 <> None).
    { destruct fuel; [done|]. intros Hno.
      rewrite parse_section_no_type in Hp by done. done. }
    match type of H with context [parse_devs w fuel ds ?g] =>
      destruct (parse_devs w fuel ds g) as [[[hs'|e] f3]|] eqn:Hrest; [| |done];
        [|done] end.
    apply IH in Hrest as (Hk & Hin & Hkeep). cbn [props with_props] in *.
    rewrite Hfr in *. simplify_eq. split; [|split].
    + rewrite Hk. apply keys_set. by rewrite Hd.
    + intros d' [<-|Hd']; [|by apply Hin].
      exists s'. split; [|done]. apply Hkeep; [by rewrite get_set_eq|done].
    + intros d' s Hget Hno. apply Hkeep; [|done].
      destruct (String.eqb_spec d' d) as [->|Hne].
      * rewrite Hd in Hget. by simplify_eq.
      * by rewrite get_set_ne.
Qed.

(** [_initialize], with its steps run. *)
Lemma _initialize_eq w f :
  _initialize w f
  = let f0 := emit (Log_debug (Msg_initialize (props f))) f in
    match props f with
    | [] => (Raise NoPropsException, f0)
    | _ :: _ =>
        match parse_devs w (depth (VSec (props f)))
                (key_order w (trace f0) (Dict.keys (props f))) f0 with
        | Some (Ok hs, f') => (Ok tt, with_devs hs f')
        | Some (Raise e, f') => (Raise e, f')
        | None => (Raise (External "out of fuel"), f0)
        end
    end.
Proof.
  unfold _initialize, get_self, log, modify, bind, raise.
  destruct (props f) eqn:E; [done|].
  cbn [props emit emits]. by rewrite E.
Qed.

(** The keys that [viewkeys] yields are the keys of the configuration. *)
Lemma key_order_In w tr keys d : In d (key_order w tr keys) <-> In d keys.
Proof.
  split; apply Permutation_in;
    [apply key_order_perm|apply Permutation_sym, key_order_perm].
Qed.

Lemma key_order_nil w tr keys : key_order w tr keys = [] -> keys = [].
Proof.
  intros H. pose proof (key_order_perm w tr keys) as Hp. rewrite H in Hp.
  by apply Permutation_nil in Hp.
Qed.

(** X15.  A build that succeeded cannot be repeated: the next build of the
    same [self.props] raises the [KeyError] of the first section, which has
    no ["type"] any more. *)
Lemma _initialize_twice w f f' :
  _initialize w f = (Ok tt, f') ->
  fst (_initialize w f') = Raise (KeyError (VStr "type")).
Proof.
  rewrite !_initialize_eq. cbn zeta.
  intros H. destruct (props f) as [|[d0 v0] p0] eqn:Hprops; [done|].
  destruct (parse_devs w _ _ _) as [[[hs|e] f1]|] eqn:Hp; [| |done]; [|done].
  simplify_eq.
  apply parse_devs_consumes in Hp as (Hk & Hin & _).
  cbn [props emit emits with_devs] in *. rewrite Hprops in Hk.
  destruct (props f1) as [|[d1 v1] p1] eqn:Hprops1; [by cbn in Hk|].
  destruct (key_order w _ (Dict.keys ((d1, v1) :: p1))) as [|d2 ds2] eqn:Hko.
  { by apply key_order_nil in Hko. }
  assert (Hd2 : In d2 (Dict.keys ((d1, v1) :: p1))).
  { eapply key_order_In. rewrite Hko. by left. }
  rewrite Hk in Hd2.
  destruct (Hin d2) as (s & Hget & Hno); [by apply key_order_In|].
  cbn [parse_devs]. unfold cfg_getitem.
  change (props (emit ?e (with_devs hs f1))) with (props f1).
  rewrite Hprops1, Hget. cbn [cfg_read].
  rewrite depth_VSec, parse_section_no_type by done. done.
Qed.

(** C4, on the code.  A build is no pure function of the configuration:
    [_parse_section] takes ["type"] out of the section it is given, and
    that section is the one held in [self.props].  Once the configuration
    of [dev1] has been read and built, [self.props] holds the section of
    [dev1] without its type, and a second build of [self.props] raises
    [KeyError('type')].  So does the [read] of the configuration of
    another device: the build of the merged configuration meets the
    section of [dev1] again, whether [viewkeys] yields its key first
    (world [world]) or after the key of the new device (world
    [world_rev]), and the fixture is left without devices. *)
Theorem second_read_raises_KeyError :
  let first w := read w Lab.one_device Lab.empty in
  let second w := read w Lab.other_device (snd (first w)) in
  (fst (first Lab.world) = Ok tt /\
   devs (snd (first Lab.world)) = [Obj 0 "dev.Device" [("name", VStr "dev1")]] /\
   props (snd (first Lab.world)) = [("dev1", VSec [("name", VStr "dev1")])] /\
   fst (_initialize Lab.world (snd (first Lab.world)))
   = Raise (KeyError (VStr "type")) /\
   fst (second Lab.world) = Raise (KeyError (VStr "type")) /\
   devs (snd (second Lab.world)) = []) /\
  (fst (first Lab.world_rev) = Ok tt /\
   props (snd (first Lab.world_rev)) = [("dev1", VSec [("name", VStr "dev1")])] /\
   fst (second Lab.world_rev) = Raise (KeyError (VStr "type")) /\
   devs (snd (second Lab.world_rev)) = [] /\
   props (snd (second Lab.world_rev))
   = [("dev1", VSec [("name", VStr "dev1")]);
      ("dev2", VSec [("name", VStr "dev2")])]).
Proof. vm_compute. repeat split; reflexivity. Qed.

(** ** [_parse_section]: the backup controller *)



(** The parse of the section [both_bcc], run: the object built last, from
    ["bctrl"], is the backup controller, and one notice is logged. *)
Example both_bcc_parsed :
  exists v' f',
    _parse_section Lab.world 2 "dev1" Lab.both_bcc Lab.empty
    = Some (Ok (Obj 2 "dev.Device"
                  [("bcc", VObj (Obj 1 "conn.SshConn" [("name", VStr "bctrl")]));
                   ("name", VStr "dev1")]), v', f') /\
    notices (trace f') = 1%nat /\
    next_oid f' = 3%nat.
Proof. eexists _, _. vm_compute. repeat split; reflexivity. Qed.


(** ** The dispatch methods on any fixture *)

Lemma list_getitem_first d ds : list_getitem (d :: ds) (VInt 0) = Ok d.
Proof. reflexivity. Qed.

(** Whatever devices follow the first, [cmd_first] calls the [cmd] of the
    first one with [msg] alone. *)
Lemma cmd_first_calls_with_msg (w : World) (f : Fixture) (d : handle) ds
    msg expect timeout login_timeout :
  devs f = d :: ds ->
  let lg := Log_debug (Msg_cmd_first msg expect timeout login_timeout) in
  let a := CmdArgs msg Omitted Omitted Omitted in
  cmd_first w msg expect timeout login_timeout f
  = (match dev_cmd w (trace f ++ [lg]) d a with
     | Raise IndexError => Raise NoDeviceException
     | r => r
     end, emits [lg; Call_cmd d a] f).
Proof.
  intros Hd lg a.
  unfold cmd_first, try_except, log, modify, get_self, lift, call_cmd.
  unfold bind at 1 2 3. cbn [devs emit emits]. rewrite Hd, list_getitem_first.
  unfold emit, emits.
  cbn [trace name devs _devs_dict classes props next_oid].
  rewrite <- app_assoc. cbn [app]. fold lg a.
  destruct (dev_cmd w _ d a) as [r|e]; [done|]. by destruct e.
Qed.

(** When the [cmd] of the first device raises, [cmd_any] raises
    [CantHandleException] without a call to any other device.  The
    message is one that [encode] takes: a byte string of ASCII. *)
Lemma cmd_any_first_device_fails (w : World) (f : Fixture) (d : handle) ds
    msg expect timeout login_timeout e :
  devs f = d :: ds ->
  is_ascii msg = true ->
  let a := CmdArgs msg (Passed expect) (Passed timeout) (Passed login_timeout) in
  let f1 := emit (Log_debug (Msg_send_cmd msg d))
              (emit (Log_debug (Msg_cmd_any msg expect timeout login_timeout)) f) in
  dev_cmd w (trace f1) d a = Raise e ->
  cmd_any w msg expect timeout login_timeout f
  = (Raise (CantHandleException (name f) (d :: ds) msg),
     emit (Log_exception e) (emit (Call_cmd d a) f1)).
Proof.
  intros Hd Hascii a f1 He. subst f1.
  unfold cmd_any, encode_unicode_escape. rewrite Hascii.
  unfold warn_if_no_devs, try_except, log, log_exception, modify,
    get_self, call_cmd, is_Exception, bind, ret, raise.
  cbn [devs name emit emits]. rewrite Hd. cbn [for_]. fold a.
  unfold bind, ret. cbn [devs name trace emit emits] in *.
  rewrite Hd. cbn [for_]. unfold bind, ret. cbn [trace emit emits]. rewrite He.
  change (name (emit ?e1 (emit ?e2 (emit ?e3 (emit ?e4 f))))) with (name f).
  change (devs (emit ?e1 (emit ?e2 (emit ?e3 (emit ?e4 f))))) with (devs f).
  by rewrite Hd.
Qed.

(** [cmd_all] ends with the answer, or the exception, of the first
    device, when the message is a byte string of ASCII. *)
Lemma cmd_all_first_device_only (w : World) (f : Fixture) (d : handle) ds
    msg expect timeout login_timeout :
  devs f = d :: ds ->
  is_ascii msg = true ->
  let a := CmdArgs msg (Passed expect) (Passed timeout) (Passed login_timeout) in
  let f1 := emit (Log_debug (Msg_send_cmd msg d))
              (emit (Log_debug (Msg_cmd_any msg expect timeout login_timeout)) f) in
  cmd_all w msg expect timeout login_timeout f
  = (match dev_cmd w (trace f1) d a with
     | Ok r => Ok (Some r)
     | Raise e => Raise e
     end, emit (Call_cmd d a) f1).
Proof.
  intros Hd Hascii a f1. subst f1.
  unfold cmd_all, encode_unicode_escape. rewrite Hascii.
  unfold warn_if_no_devs, log, modify, get_self, call_cmd, bind, ret.
  cbn [devs name emit emits]. rewrite Hd. cbn [for_]. fold a.
  unfold bind, ret. cbn [devs name trace emit emits].
  rewrite Hd. cbn [for_]. unfold bind, ret. cbn [trace emit emits].
  by destruct (dev_cmd w _ d a).
Qed.

(** ** The example of a device with one connection *)

Example build_device_with_conn :
  let f := snd (read Lab.world Lab.device_with_conn Lab.empty) in
  fst (read Lab.world Lab.device_with_conn Lab.empty) = Ok tt /\
  devs f
  = [Obj 1 "dev.Device"
       [("conns", VObjs [Obj 0 "conn.SerialConn"
                           [("port", VStr "/dev/ttyUSB0"); ("name", VStr "conn1")]]);
        ("name", VStr "dev1")]].
Proof. vm_compute. split; reflexivity. Qed.

(** * Further properties *)

(** ** [get_dev], case by case *)

Lemma list_getitem_not_TypeError ds i : list_getitem ds (VInt i) <> Raise TypeError.
Proof.
  unfold list_getitem. repeat case_match; done.
Qed.

Lemma get_dev_int w f i :
  get_dev w (VInt i) f = (list_getitem (devs f) (VInt i), f).
Proof.
  pose proof (list_getitem_not_TypeError (devs f) i) as Hne.
  unfold get_dev, try_except, bind, get_self, lift.
  destruct (list_getitem (devs f) (VInt i)) as [h|e]; [done|].
  destruct e; try done.
Qed.

Lemma get_dev_str w f s :
  get_dev w (VStr s) f
  = match _devs_dict f !! s with
    | Some h => (Ok h, f)
    | None => get_dev_scan w (VStr s) (devs f) [] f
    end.
Proof.
  unfold get_dev, try_except, bind, get_self, lift. simpl.
  by destruct (_devs_dict f !! s).
Qed.

(** The scan stops at the first device with the name and files it. *)
Lemma get_dev_scan_first w s pre d post :
  forall names f,
    (forall x, In x pre -> dev_name w x <> s) ->
    dev_name w d = s ->
    get_dev_scan w (VStr s) (pre ++ d :: post) names f
    = (Ok d, with_devs_dict (<[s := d]> (_devs_dict f)) f).
Proof.
  induction pre as [|p pre IH]; intros names f Hpre Hd; simpl.
  - rewrite Hd, String.eqb_refl. done.
  - destruct (String.eqb_spec (dev_name w p) s) as [Heq|_].
    + exfalso. by apply (Hpre p); [left|].
    + apply IH; [|done]. intros x Hx. apply Hpre. by right.
Qed.

(** What a scan can end in. *)
Lemma get_dev_scan_cases w s ds :
  forall names f r f',
    get_dev_scan w (VStr s) ds names f = (r, f') ->
    (exists d, r = Ok d /\ In d ds /\ dev_name w d = s /\
               f' = with_devs_dict (<[s := d]> (_devs_dict f)) f) \/
    (exists names', r = Raise (WrongNameException (VStr s) names') /\ f' = f).
Proof.
  induction ds as [|d ds IH]; intros names f r f' H; simpl in H.
  - unfold raise in H. simplify_eq. right. eauto.
  - destruct (String.eqb_spec (dev_name w d) s) as [Heq|_].
    + unfold bind, modify, ret in H. simplify_eq. left. exists d.
      split; [done|]. split; [by left|]. done.
    + apply IH in H as [(d' & -> & Hin & Hn & ->)|(names' & -> & ->)].
      * left. exists d'. split; [done|]. split; [by right|]. done.
      * right. eauto.
Qed.

Lemma get_dev_scan_other w which ds :
  forall names f,
    (forall s, which <> VStr s) ->
    get_dev_scan w which ds names f
    = (Raise (WrongNameException which (names ++ map (dev_name w) ds)), f).
Proof.
  induction ds as [|d ds IH]; intros names f Hw; simpl.
  - by rewrite app_nil_r.
  - replace (name_is w d which) with false.
    + rewrite IH by done. by rewrite <- app_assoc.
    + destruct which; try done. by destruct (Hw s).
Qed.

(** What [get_dev] can end in: the fixture is as before, or it is as
    before but for one more entry in the cache, under the name asked for
    and for a device of the graph with that name. *)
Lemma get_dev_cases w which f r f' :
  get_dev w which f = (r, f') ->
  f' = f \/
  exists s d, which = VStr s /\ r = Ok d /\ _devs_dict f !! s = None /\
              In d (devs f) /\ dev_name w d = s /\
              f' = with_devs_dict (<[s := d]> (_devs_dict f)) f.
Proof.
  destruct which as [s|i|l|sec|h|hs].
  - rewrite get_dev_str. destruct (_devs_dict f !! s) as [h|] eqn:Hc.
    + intros [= <- <-]. by left.
    + intros H. apply get_dev_scan_cases in H
        as [(d & -> & Hin & Hn & ->)|(names' & -> & ->)]; [|by left].
      right. by exists s, d.
  - rewrite get_dev_int. intros [= <- <-]. by left.
  - unfold get_dev, try_except, bind, get_self, lift. simpl.
    intros [= <- <-]. by left.
  - unfold get_dev, try_except, bind, get_self, lift. simpl.
    intros [= <- <-]. by left.
  - unfold get_dev, try_except, bind, get_self, lift. simpl.
    rewrite get_dev_scan_other by done. intros [= <- <-]. by left.
  - unfold get_dev, try_except, bind, get_self, lift. simpl.
    intros [= <- <-]. by left.
Qed.

(** X1.  An index within the bounds of [self.devs] gives the device at that
    place, counted from the end when the index is negative, and leaves the
    fixture as it was. *)
Theorem get_dev_by_index (w : World) (f : Fixture) (i : Z) :
  - Z.of_nat (length (devs f)) <= i < Z.of_nat (length (devs f)) ->
  exists h,
    get_dev w (VInt i) f = (Ok h, f) /\
    nth_error (devs f) (Z.to_nat (i mod Z.of_nat (length (devs f)))) = Some h.
Proof.
  intros Hi. rewrite get_dev_int. unfold list_getitem.
  set (n := Z.of_nat (length (devs f))) in *.
  assert (Hj : (if i <? 0 then i + n else i) = i mod n).
  { destruct (i <? 0) eqn:Hneg.
    - apply Z.ltb_lt in Hneg. apply Z.mod_unique with (q := -1); lia.
    - apply Z.ltb_ge in Hneg. symmetry. apply Z.mod_small. lia. }
  rewrite Hj.
  assert (Hm : 0 <= i mod n < n) by (apply Z.mod_pos_bound; lia).
  replace (0 <=? i mod n) with true by (symmetry; apply Z.leb_le; lia).
  replace (i mod n <? n) with true by (symmetry; apply Z.ltb_lt; lia).
  simpl.
  destruct (nth_error (devs f) (Z.to_nat (i mod n))) as [h|] eqn:Hn; [by exists h|].
  apply nth_error_None in Hn. unfold n in *. lia.
Qed.

Lemma get_dev_by_index_witness :
  (- Z.of_nat (length (devs Lab.four)) <= -1 < Z.of_nat (length (devs Lab.four))) /\
  exists h,
    get_dev Lab.world (VInt (-1)) Lab.four = (Ok h, Lab.four) /\
    nth_error (devs Lab.four) (Z.to_nat (-1 mod Z.of_nat (length (devs Lab.four))))
    = Some h.
Proof.
  assert (H : - Z.of_nat (length (devs Lab.four)) <= -1
              < Z.of_nat (length (devs Lab.four))) by (simpl; lia).
  split; [exact H|]. exact (get_dev_by_index Lab.world Lab.four (-1) H).
Defined.

(** X2.  A name that is not in the cache is looked for in [self.devs]: the
    first device with the name, in the order of the graph, is returned and
    filed in the cache under the name; nothing else of the fixture
    changes. *)
Theorem get_dev_finds_first_by_name (w : World) (f : Fixture) (s : string)
    (pre : list handle) (d : handle) (post : list handle) :
  _devs_dict f !! s = None ->
  devs f = (pre ++ d :: post)%list ->
  (forall x, In x pre -> dev_name w x <> s) ->
  dev_name w d = s ->
  get_dev w (VStr s) f
  = (Ok d, with_devs_dict (<[s := d]> (_devs_dict f)) f).
Proof.
  intros Hc Hdevs Hpre Hd. rewrite get_dev_str, Hc, Hdevs.
  by apply get_dev_scan_first.
Qed.

Lemma get_dev_finds_first_by_name_witness :
  _devs_dict Lab.four !! "d3" = None /\
  devs Lab.four = ([Lab.d1; Lab.d2] ++ Lab.d3 :: [Lab.d4])%list /\
  (forall x, In x [Lab.d1; Lab.d2] -> dev_name Lab.world x <> "d3") /\
  dev_name Lab.world Lab.d3 = "d3" /\
  get_dev Lab.world (VStr "d3") Lab.four
  = (Ok Lab.d3, with_devs_dict (<["d3" := Lab.d3]> (_devs_dict Lab.four)) Lab.four).
Proof.
  assert (H1 : _devs_dict Lab.four !! "d3" = None) by reflexivity.
  assert (H2 : devs Lab.four = ([Lab.d1; Lab.d2] ++ Lab.d3 :: [Lab.d4])%list)
    by reflexivity.
  assert (H3 : forall x, In x [Lab.d1; Lab.d2] -> dev_name Lab.world x <> "d3").
  { intros x [<-|[<-|[]]]; discriminate. }
  assert (H4 : dev_name Lab.world Lab.d3 = "d3") by reflexivity.
  split; [exact H1|]. split; [exact H2|]. split; [exact H3|]. split; [exact H4|].
  exact (get_dev_finds_first_by_name Lab.world Lab.four "d3" _ _ _ H1 H2 H3 H4).
Defined.

(** X3.  A lookup that succeeded can be repeated: asked again, at once,
    [get_dev] returns the same device and changes nothing. *)
Theorem get_dev_again (w : World) (which : value) (f : Fixture) (h : handle)
    (f' : Fixture) :
  get_dev w which f = (Ok h, f') ->
  get_dev w which f' = (Ok h, f').
Proof.
  intros H. destruct (get_dev_cases _ _ _ _ _ H)
    as [->|(s & d & -> & Hr & _ & _ & _ & ->)]; [done|].
  injection Hr as ->. rewrite get_dev_str. cbn [_devs_dict with_devs_dict].
  by rewrite lookup_insert_eq.
Qed.

Lemma get_dev_again_witness :
  exists f',
    get_dev Lab.world (VStr "d3") Lab.four = (Ok Lab.d3, f') /\
    get_dev Lab.world (VStr "d3") f' = (Ok Lab.d3, f').
Proof.
  eexists. split; [vm_compute; reflexivity|].
  apply (get_dev_again Lab.world (VStr "d3") Lab.four). vm_compute. reflexivity.
Defined.

(** X5.  [get_dev] calls no device and logs nothing, and it leaves the
    graph, the configuration and the classes as they are; in the cache it
    neither drops nor replaces an entry. *)
Theorem get_dev_keeps_fixture (w : World) (which : value) (f : Fixture) :
  let f' := snd (get_dev w which f) in
  trace f' = trace f /\ devs f' = devs f /\ props f' = props f /\
  classes f' = classes f /\
  (forall s h, _devs_dict f !! s = Some h -> _devs_dict f' !! s = Some h).
Proof.
  destruct (get_dev w which f) as [r f'] eqn:H. cbn [snd].
  destruct (get_dev_cases _ _ _ _ _ H)
    as [->|(s & d & -> & _ & Hc & _ & _ & ->)]; [done|].
  repeat split; try done.
  intros s' h' Hs'. cbn [_devs_dict with_devs_dict].
  rewrite lookup_insert_ne; [done|]. intros <-. by rewrite Hc in Hs'.
Qed.

(** X6.  [get_dev] files a device under its own name only: when every
    entry of the cache is under the name of its device, that is still so
    after [get_dev]. *)
Theorem get_dev_keeps_cache_named (w : World) (which : value) (f : Fixture) :
  cache_named w f -> cache_named w (snd (get_dev w which f)).
Proof.
  intros Hf. destruct (get_dev w which f) as [r f'] eqn:H. cbn [snd].
  destruct (get_dev_cases _ _ _ _ _ H)
    as [->|(s & d & -> & _ & _ & _ & Hn & ->)]; [done|].
  intros s' h'. cbn [_devs_dict with_devs_dict].
  destruct (decide (s = s')) as [<-|Hne].
  - rewrite lookup_insert_eq. by intros [= <-].
  - rewrite lookup_insert_ne by done. apply Hf.
Qed.

Lemma get_dev_keeps_cache_named_witness :
  cache_named Lab.world Lab.four /\
  cache_named Lab.world (snd (get_dev Lab.world (VStr "d3") Lab.four)).
Proof.
  assert (H : cache_named Lab.world Lab.four).
  { intros s h Hs. vm_compute in Hs. discriminate Hs. }
  split; [exact H|].
  exact (get_dev_keeps_cache_named Lab.world (VStr "d3") Lab.four H).
Defined.

Lemma get_dev_unknown_name_witness :
  _devs_dict Lab.four !! "d5" = None /\
  (forall d, In d (devs Lab.four) -> dev_name Lab.world d <> "d5") /\
  get_dev Lab.world (VStr "d5") Lab.four
  = (Raise (WrongNameException (VStr "d5") ["d1"; "d2"; "d3"; "d4"]), Lab.four).
Proof.
  assert (H1 : _devs_dict Lab.four !! "d5" = None) by reflexivity.
  assert (H2 : forall d, In d (devs Lab.four) -> dev_name Lab.world d <> "d5").
  { intros d [<-|[<-|[<-|[<-|[]]]]]; discriminate. }
  split; [exact H1|]. split; [exact H2|].
  exact (get_dev_unknown_name Lab.world Lab.four "d5" H1 H2).
Defined.

(** ** Methods that only add to the trace *)

Lemma traces_only_ret {A} (a : A) : traces_only (ret a).
Proof. intros f. exists []. by rewrite emits_nil. Qed.

Lemma traces_only_raise {A} (e : exn) : traces_only (raise (A := A) e).
Proof. intros f. exists []. by rewrite emits_nil. Qed.

Lemma traces_only_lift {A} (r : result A) : traces_only (lift r).
Proof. intros f. exists []. by rewrite emits_nil. Qed.

Lemma traces_only_get_self : traces_only get_self.
Proof. intros f. exists []. by rewrite emits_nil. Qed.

Lemma traces_only_emit (e : event) : traces_only (modify (emit e)).
Proof. intros f. by exists [e]. Qed.

Lemma traces_only_bind {A B} (m : M A) (k : A -> M B) :
  traces_only m -> (forall a, traces_only (k a)) -> traces_only (bind m k).
Proof.
  intros Hm Hk f. unfold bind. destruct (Hm f) as [es1 H1].
  destruct (m f) as [[a|e] f1]; cbn [snd] in *; subst f1.
  - destruct (Hk a (emits es1 f)) as [es2 H2]. rewrite H2, emits_emits. eauto.
  - eauto.
Qed.

Lemma traces_only_try_except {A} (m : M A) handles (h : exn -> M A) :
  traces_only m -> (forall e, traces_only (h e)) -> traces_only (try_except m handles h).
Proof.
  intros Hm Hh f. unfold try_except. destruct (Hm f) as [es1 H1].
  destruct (m f) as [[a|e] f1]; cbn [snd] in *; subst f1; [eauto|].
  destruct (handles e); [|eauto].
  destruct (Hh e (emits es1 f)) as [es2 H2]. rewrite H2, emits_emits. eauto.
Qed.

Lemma traces_only_for {X A} (l : list X) (body : X -> M (ctl A)) :
  (forall x, traces_only (body x)) -> traces_only (for_ l body).
Proof.
  intros Hb. induction l as [|x l IH]; simpl.
  - apply traces_only_ret.
  - apply traces_only_bind; [done|]. intros [|a]; [done|apply traces_only_ret].
Qed.

Lemma traces_only_call_cmd w dev a : traces_only (call_cmd w dev a).
Proof. intros f. by exists [Call_cmd dev a]. Qed.

Lemma traces_only_call_void behaviour ev dev : traces_only (call_void behaviour ev dev).
Proof. intros f. by exists [ev dev]. Qed.

Lemma traces_only_encode msg : traces_only (encode_unicode_escape msg).
Proof.
  unfold encode_unicode_escape.
  destruct (is_ascii msg); [apply traces_only_ret|apply traces_only_raise].
Qed.

Lemma traces_only_warn : traces_only warn_if_no_devs.
Proof.
  apply traces_only_bind; [apply traces_only_get_self|].
  intros self. destruct (devs self); [apply traces_only_emit|apply traces_only_ret].
Qed.

Lemma traces_only_same_graph {A} (m : M A) f :
  traces_only m -> same_graph f (snd (m f)).
Proof. intros Hm. destruct (Hm f) as [es ->]. by repeat split. Qed.

(** X10.  Sending commands and resetting never changes the fixture:
    [cmd_first], [cmd_any], [cmd_all] and [reset_config_all] leave the
    graph, the cache, the configuration and the classes as they are,
    whatever the devices do. *)
Theorem dispatch_keeps_graph (w : World) (msg : string) (expect : option string)
    (timeout : Z) (login_timeout : option Z) (f : Fixture) :
  same_graph f (snd (cmd_first w msg expect timeout login_timeout f)) /\
  same_graph f (snd (cmd_any w msg expect timeout login_timeout f)) /\
  same_graph f (snd (cmd_all w msg expect timeout login_timeout f)) /\
  same_graph f (snd (reset_config_all w f)).
Proof.
  split; [|split; [|split]]; apply traces_only_same_graph;
    unfold cmd_first, cmd_any, cmd_all, reset_config_all, log, log_exception.
  - apply traces_only_bind; [apply traces_only_emit|]. intros _.
    apply traces_only_try_except; [|intros; apply traces_only_raise].
    apply traces_only_bind; [apply traces_only_get_self|]. intros self.
    apply traces_only_bind; [apply traces_only_lift|]. intros dev.
    apply traces_only_call_cmd.
  - apply traces_only_bind; [apply traces_only_emit|]. intros _.
    apply traces_only_bind; [apply traces_only_warn|]. intros _.
    apply traces_only_bind; [apply traces_only_get_self|]. intros self.
    apply traces_only_for. intros dev.
    apply traces_only_bind.
    + apply traces_only_try_except.
      * apply traces_only_bind; [apply traces_only_encode|]. intros _.
        apply traces_only_bind; [apply traces_only_emit|]. intros _.
        apply traces_only_bind; [apply traces_only_call_cmd|]. intros r.
        apply traces_only_ret.
      * intros e. apply traces_only_bind; [apply traces_only_emit|]. intros _.
        apply traces_only_ret.
    + intros [|r]; [|apply traces_only_ret].
      apply traces_only_bind; [apply traces_only_get_self|]. intros self'.
      apply traces_only_bind; [apply traces_only_encode|]. intros _.
      apply traces_only_raise.
  - apply traces_only_bind; [apply traces_only_emit|]. intros _.
    apply traces_only_bind; [apply traces_only_warn|]. intros _.
    apply traces_only_bind; [apply traces_only_get_self|]. intros self.
    apply traces_only_for. intros dev.
    apply traces_only_bind; [apply traces_only_encode|]. intros _.
    apply traces_only_bind; [apply traces_only_emit|]. intros _.
    apply traces_only_bind; [apply traces_only_call_cmd|]. intros r.
    apply traces_only_ret.
  - apply traces_only_bind; [apply traces_only_warn|]. intros _.
    apply traces_only_bind; [apply traces_only_get_self|]. intros self.
    apply traces_only_bind; [|intros; apply traces_only_ret].
    apply traces_only_for. intros dev.
    apply traces_only_bind; [apply traces_only_call_void|]. intros _.
    apply traces_only_ret.
Qed.

(** ** [cmd_first] and [cmd_any], where they work *)

(** X8.  On a fixture without devices [cmd_first] raises
    [NoDeviceException]; it has logged its call and called no device. *)
Theorem cmd_first_no_device (w : World) (f : Fixture) (msg : string)
    (expect : option string) (timeout : Z) (login_timeout : option Z) :
  devs f = [] ->
  cmd_first w msg expect timeout login_timeout f
  = (Raise NoDeviceException,
     emit (Log_debug (Msg_cmd_first msg expect timeout login_timeout)) f).
Proof.
  intros Hd. unfold cmd_first, try_except, log, modify, get_self, lift, bind, raise.
  cbn [devs emit emits]. by rewrite Hd.
Qed.

Lemma cmd_first_no_device_witness :
  devs Lab.empty = [] /\
  cmd_first Lab.world "ls" None 30 None Lab.empty
  = (Raise NoDeviceException,
     emit (Log_debug (Msg_cmd_first "ls" None 30 None)) Lab.empty).
Proof.
  split; [reflexivity|].
  exact (cmd_first_no_device Lab.world Lab.empty "ls" None 30 None eq_refl).
Defined.

(** X7.  The [except IndexError] of [cmd_first] is around the call of
    [cmd] too: when the [cmd] of the first device raises [IndexError],
    [cmd_first] raises [NoDeviceException] although the device is there and
    was called. *)
Theorem cmd_first_masks_IndexError (w : World) (f : Fixture) (d : handle)
    (ds : list handle) (msg : string) (expect : option string) (timeout : Z)
    (login_timeout : option Z) :
  devs f = d :: ds ->
  let lg := Log_debug (Msg_cmd_first msg expect timeout login_timeout) in
  let a := CmdArgs msg Omitted Omitted Omitted in
  dev_cmd w (trace f ++ [lg]) d a = Raise IndexError ->
  cmd_first w msg expect timeout login_timeout f
  = (Raise NoDeviceException, emits [lg; Call_cmd d a] f).
Proof.
  intros Hd lg a He.
  rewrite (cmd_first_calls_with_msg w f d ds) by done. fold lg a. by rewrite He.
Qed.

Lemma cmd_first_masks_IndexError_witness :
  let broken := MkWorld Lab.name_attr (fun _ _ _ => Raise IndexError)
                  (fun _ _ => None) (fun _ _ => None) (fun _ _ _ => None)
                  (interpolate Lab.world) (interpolate_list Lab.world)
                  (pop_deletes_first Lab.world)
                  (key_order Lab.world) (key_order_perm Lab.world) in
  let lg := Log_debug (Msg_cmd_first "ls" None 30 None) in
  let a := CmdArgs "ls" Omitted Omitted Omitted in
  devs Lab.two_good = Lab.d3 :: [Lab.d4] /\
  dev_cmd broken (trace Lab.two_good ++ [lg]) Lab.d3 a = Raise IndexError /\
  cmd_first broken "ls" None 30 None Lab.two_good
  = (Raise NoDeviceException, emits [lg; Call_cmd Lab.d3 a] Lab.two_good).
Proof.
  intros broken lg a. split; [reflexivity|]. split; [reflexivity|].
  exact (cmd_first_masks_IndexError broken Lab.two_good Lab.d3 [Lab.d4]
           "ls" None 30 None eq_refl eq_refl).
Defined.

(** X9.  When the message is a byte string of ASCII, so that the
    [encode] of the log line takes it, and the [cmd] of the first device
    returns, [cmd_any] returns the answer of the device: the device got all
    four arguments and no other device was called. *)
Theorem cmd_any_first_device_answers (w : World) (f : Fixture) (d : handle)
    (ds : list handle) (msg : string) (expect : option string) (timeout : Z)
    (login_timeout : option Z) (r : string) :
  devs f = d :: ds ->
  is_ascii msg = true ->
  let a := CmdArgs msg (Passed expect) (Passed timeout) (Passed login_timeout) in
  let f1 := emit (Log_debug (Msg_send_cmd msg d))
              (emit (Log_debug (Msg_cmd_any msg expect timeout login_timeout)) f) in
  dev_cmd w (trace f1) d a = Ok r ->
  cmd_any w msg expect timeout login_timeout f
  = (Ok (Some r), emit (Call_cmd d a) f1).
Proof.
  intros Hd Hascii a f1 He. subst f1.
  unfold cmd_any, encode_unicode_escape. rewrite Hascii.
  unfold warn_if_no_devs, try_except, log, log_exception, modify,
    get_self, call_cmd, is_Exception, bind, ret, raise.
  cbn [devs name emit emits]. rewrite Hd. cbn [for_]. fold a.
  unfold bind, ret. cbn [devs name trace emit emits] in *.
  rewrite Hd. cbn [for_]. unfold bind, ret. cbn [trace emit emits]. by rewrite He.
Qed.

Lemma cmd_any_first_device_answers_witness :
  devs Lab.two_good = Lab.d3 :: [Lab.d4] /\
  is_ascii "ls" = true /\
  cmd_any Lab.world "ls" (Some "$") 5 None Lab.two_good
  = (Ok (Some "done by d3"),
     emit (Call_cmd Lab.d3 (CmdArgs "ls" (Passed (Some "$")) (Passed 5) (Passed None)))
       (emit (Log_debug (Msg_send_cmd "ls" Lab.d3))
          (emit (Log_debug (Msg_cmd_any "ls" (Some "$") 5 None)) Lab.two_good))).
Proof.
  split; [reflexivity|]. split; [reflexivity|].
  exact (cmd_any_first_device_answers Lab.world Lab.two_good Lab.d3 [Lab.d4]
           "ls" (Some "$") 5 None "done by d3" eq_refl eq_refl eq_refl).
Defined.

(** A message with a byte above 127 never reaches a device: the [encode]
    of the log line raises inside the [try], the exception is logged, and
    the [encode] of the [raise] statement raises it again. *)
Lemma cmd_any_non_ascii (w : World) (f : Fixture) (d : handle)
    (ds : list handle) (msg : string) (expect : option string) (timeout : Z)
    (login_timeout : option Z) :
  devs f = d :: ds ->
  is_ascii msg = false ->
  cmd_any w msg expect timeout login_timeout f
  = (Raise UnicodeDecodeError,
     emit (Log_exception UnicodeDecodeError)
       (emit (Log_debug (Msg_cmd_any msg expect timeout login_timeout)) f)).
Proof.
  intros Hd Hascii.
  unfold cmd_any, encode_unicode_escape. rewrite Hascii.
  unfold warn_if_no_devs, try_except, log, log_exception, modify,
    get_self, call_cmd, is_Exception, bind, ret, raise.
  cbn [devs name emit emits]. rewrite Hd. cbn [for_].
  unfold bind, ret. cbn [devs name trace emit emits] in *.
  by rewrite Hd.
Qed.

(** [cmd_all] has no [try] around the log line. *)
Lemma cmd_all_non_ascii (w : World) (f : Fixture) (d : handle)
    (ds : list handle) (msg : string) (expect : option string) (timeout : Z)
    (login_timeout : option Z) :
  devs f = d :: ds ->
  is_ascii msg = false ->
  cmd_all w msg expect timeout login_timeout f
  = (Raise UnicodeDecodeError,
     emit (Log_debug (Msg_cmd_any msg expect timeout login_timeout)) f).
Proof.
  intros Hd Hascii.
  unfold cmd_all, encode_unicode_escape. rewrite Hascii.
  unfold warn_if_no_devs, log, modify, get_self, call_cmd, bind, ret, raise.
  cbn [devs name emit emits]. rewrite Hd. cbn [for_].
  unfold bind, ret. cbn [devs name trace emit emits] in *.
  by rewrite Hd.
Qed.

(** ** [tear_down], whatever the devices do *)

Lemma tear_down_eq w f :
  tear_down w f
  = match for_ (A := unit) (devs f)
            (fun device => bind (call_close_all w device) (fun _ => ret Next))
            (emit (Log_debug Msg_teardown) f) with
    | (Ok _, f') => (Ok tt, with_devs [] f')
    | (Raise e, f') => (Raise e, f')
    end.
Proof.
  unfold tear_down, log, modify, get_self. unfold bind at 1 2 3.
  cbn [devs emit emits]. by destruct (for_ _ _ _) as [[?|?] ?].
Qed.

Lemma tear_down_ok w f :
  (forall tr h, In h (devs f) -> dev_close_all w tr h = None) ->
  tear_down w f
  = (Ok tt,
     with_devs [] (emits (Log_debug Msg_teardown :: map Call_close_all (devs f)) f)).
Proof.
  intros Hok. rewrite tear_down_eq. unfold call_close_all.
  rewrite for_call_void_ok by done. by rewrite emit_emits.
Qed.

Lemma tear_down_raise w f pre d post e :
  devs f = (pre ++ d :: post)%list ->
  (forall tr h, In h pre -> dev_close_all w tr h = None) ->
  (forall tr, dev_close_all w tr d = Some e) ->
  tear_down w f
  = (Raise e, emits (Log_debug Msg_teardown :: map Call_close_all (pre ++ [d])) f).
Proof.
  intros Hd Hpre Hbad. rewrite tear_down_eq, Hd. unfold call_close_all.
  rewrite (for_call_void_raise _ _ pre d post e) by done. by rewrite emit_emits.
Qed.

(** X11.  [tear_down] never touches the configuration, the classes or the
    cache of names, whatever the devices do; [self.devs] is empty when it
    returns and as it was when it raises. *)
Theorem tear_down_keeps_configuration (w : World) (f : Fixture) :
  let r := fst (tear_down w f) in
  let f' := snd (tear_down w f) in
  props f' = props f /\ classes f' = classes f /\ _devs_dict f' = _devs_dict f /\
  match r with
  | Ok _ => devs f' = []
  | Raise _ => devs f' = devs f
  end.
Proof.
  rewrite tear_down_eq.
  assert (Hfor : traces_only (for_ (A := unit) (devs f)
            (fun device => bind (call_close_all w device) (fun _ => ret Next)))).
  { apply traces_only_for. intros dev.
    apply traces_only_bind; [apply traces_only_call_void|].
    intros _. apply traces_only_ret. }
  destruct (Hfor (emit (Log_debug Msg_teardown) f)) as [es Hes].
  destruct (for_ _ _ _) as [[u|e] f1]; cbn [fst snd] in *; subst f1; done.
Qed.

(** X12.  A [tear_down] that failed does not remember what it closed:
    [self.devs] is as it was, so the next [tear_down] starts at the first
    device again.  The failed run has called [close_all] on the first [m]
    devices, the next one calls it on the first [n] devices, with [m] and
    [n] at least one: the first device of the graph is called a second
    time, and what that call does decides how far the next run gets. *)
Theorem tear_down_retry_closes_again (w : World) (f f1 : Fixture) (e : exn) :
  tear_down w f = (Raise e, f1) ->
  devs f1 = devs f /\
  exists m n r f2,
    (1 <= m <= length (devs f))%nat /\
    (1 <= n <= length (devs f))%nat /\
    close_all_calls (trace f1)
    = (close_all_calls (trace f) ++ take m (devs f))%list /\
    tear_down w f1 = (r, f2) /\
    close_all_calls (trace f2)
    = (close_all_calls (trace f) ++ take m (devs f) ++ take n (devs f))%list.
Proof.
  intros H. rewrite tear_down_eq in H.
  destruct (for_ _ _ _) as [[u|e1] g1] eqn:Hfor; [done|]. simplify_eq.
  apply for_call_void_prefix in Hfor as (m & Hm & -> & Hm1).
  split; [done|].
  destruct (tear_down w (emits (map Call_close_all (take m (devs f)))
                           (emit (Log_debug Msg_teardown) f))) as [r f2] eqn:H2.
  pose proof H2 as H2'. rewrite tear_down_eq in H2'.
  change (devs (emits ?es (emit ?e0 f))) with (devs f) in H2'.
  destruct (for_ _ _ _) as [r2 g2] eqn:Hfor2.
  apply for_call_void_prefix in Hfor2 as (n & Hn & -> & Hn1).
  assert (Hlen : (1 <= length (devs f))%nat) by lia.
  assert (Hn1' : (1 <= n)%nat) by (destruct r2; lia).
  exists m, n, r, f2. split; [lia|]. split; [lia|]. split; [|split; [done|]].
  - cbn [trace emit emits]. rewrite !close_all_calls_app. cbn [close_all_calls].
    by rewrite close_all_calls_map, app_nil_r.
  - assert (Htr : trace f2
                  = ((((trace f ++ [Log_debug Msg_teardown])
                         ++ map Call_close_all (take m (devs f)))
                        ++ [Log_debug Msg_teardown])
                       ++ map Call_close_all (take n (devs f)))%list).
    { destruct r2; simplify_eq; done. }
    rewrite Htr, !close_all_calls_app. cbn [close_all_calls].
    by rewrite !close_all_calls_map, !app_nil_r, <- app_assoc.
Qed.

Lemma tear_down_retry_closes_again_witness :
  let f1 := snd (tear_down Lab.world_once Lab.bad_last) in
  tear_down Lab.world_once Lab.bad_last = (Raise (External "stuck"), f1) /\
  fst (tear_down Lab.world_once f1) = Raise (External "already closed") /\
  close_all_calls (trace (snd (tear_down Lab.world_once f1)))
  = [Lab.d3; Lab.d1; Lab.d3] /\
  devs f1 = devs Lab.bad_last /\
  exists m n r f2,
    (1 <= m <= length (devs Lab.bad_last))%nat /\
    (1 <= n <= length (devs Lab.bad_last))%nat /\
    close_all_calls (trace f1)
    = (close_all_calls (trace Lab.bad_last) ++ take m (devs Lab.bad_last))%list /\
    tear_down Lab.world_once f1 = (r, f2) /\
    close_all_calls (trace f2)
    = (close_all_calls (trace Lab.bad_last) ++ take m (devs Lab.bad_last)
         ++ take n (devs Lab.bad_last))%list.
Proof.
  intros f1.
  assert (H : tear_down Lab.world_once Lab.bad_last = (Raise (External "stuck"), f1))
    by reflexivity.
  split; [exact H|]. split; [reflexivity|]. split; [reflexivity|].
  exact (tear_down_retry_closes_again Lab.world_once Lab.bad_last f1 _ H).
Defined.

(** ** [_initialize] and [read] *)

(** X13.  Without configuration [_initialize] raises [NoPropsException];
    it has logged its call and done nothing else. *)
Theorem _initialize_no_props (w : World) (f : Fixture) :
  props f = [] ->
  _initialize w f
  = (Raise NoPropsException, emit (Log_debug (Msg_initialize [])) f).
Proof. intros Hp. rewrite _initialize_eq, Hp. done. Qed.

Lemma _initialize_no_props_witness :
  props Lab.empty = [] /\
  _initialize Lab.world Lab.empty
  = (Raise NoPropsException, emit (Log_debug (Msg_initialize [])) Lab.empty).
Proof.
  split; [reflexivity|]. exact (_initialize_no_props Lab.world Lab.empty eq_refl).
Defined.

Lemma key_order_of_nil w tr : key_order w tr [] = [].
Proof. apply Permutation_nil, Permutation_sym, key_order_perm. Qed.

Lemma _initialize_nonempty w f :
  props f <> [] ->
  _initialize w f
  = let f0 := emit (Log_debug (Msg_initialize (props f))) f in
    match parse_devs w (depth (VSec (props f)))
            (key_order w (trace f0) (Dict.keys (props f))) f0 with
    | Some (Ok hs, f') => (Ok tt, with_devs hs f')
    | Some (Raise e, f') => (Raise e, f')
    | None => (Raise (External "out of fuel"), f0)
    end.
Proof. intros Hne. rewrite _initialize_eq. by destruct (props f). Qed.

Lemma no_cookie_get k d v :
  no_cookie (VSec d) = true -> Dict.get k d = Some v -> no_cookie v = true.
Proof.
  induction d as [|[k' v'] d IH]; [done|].
  cbn [no_cookie]. intros H. apply andb_true_iff in H as [Hv Hd].
  simpl. destruct (String.eqb k k'); [by intros [= <-]|].
  by apply IH.
Qed.

(** X19.  When no string of the configuration holds a [%], so that
    configobj interpolates nothing, and the key that [viewkeys] yields
    first holds a value that is no section (a string, a number or a
    list), [_initialize] raises [AttributeError], from [section.keys()] in
    [_parse_section]: nothing is built and the fixture is left as it was,
    but for the log. *)
Theorem _initialize_scalar_entry (w : World) (f : Fixture) (d : string)
    (rest : list string) (v : value) :
  let f0 := emit (Log_debug (Msg_initialize (props f))) f in
  no_cookie (VSec (props f)) = true ->
  key_order w (trace f0) (Dict.keys (props f)) = d :: rest ->
  Dict.get d (props f) = Some v ->
  (forall sec, v <> VSec sec) ->
  _initialize w f = (Raise AttributeError, f0).
Proof.
  intros f0 Hplain Hko Hget Hv. rewrite _initialize_nonempty.
  2:{ intros E. rewrite E in Hko. by rewrite key_order_of_nil in Hko. }
  cbn zeta. fold f0.
  rewrite Hko, depth_VSec. cbn [parse_devs]. unfold cfg_getitem.
  change (props f0) with (props f). rewrite Hget.
  assert (Hread : cfg_read w (trace f0) (props f) d v = Ok v).
  { apply cfg_read_plain. pose proof (no_cookie_get _ _ _ Hplain Hget) as Hc.
    destruct v; try done; simpl in Hc; by apply negb_true_iff in Hc. }
  rewrite Hread.
  assert (Hparse : forall n, _parse_section w (S n) d v f0
                             = Some (Raise AttributeError, v, f0)).
  { intros n. destruct v; try done. by destruct (Hv items). }
  rewrite Hparse. destruct v; try done. by destruct (Hv items).
Qed.

Lemma _initialize_scalar_entry_witness :
  let f := with_props Lab.option_first Lab.empty in
  let f0 := emit (Log_debug (Msg_initialize (props f))) f in
  no_cookie (VSec (props f)) = true /\
  key_order Lab.world (trace f0) (Dict.keys (props f)) = "port" :: ["dev1"] /\
  Dict.get "port" (props f) = Some (VStr "/dev/ttyUSB0") /\
  (forall sec, VStr "/dev/ttyUSB0" <> VSec sec) /\
  _initialize Lab.world f = (Raise AttributeError, f0).
Proof.
  intros f f0.
  assert (H0 : no_cookie (VSec (props f)) = true) by reflexivity.
  assert (H1 : key_order Lab.world (trace f0) (Dict.keys (props f))
               = "port" :: ["dev1"]) by reflexivity.
  assert (H2 : Dict.get "port" (props f) = Some (VStr "/dev/ttyUSB0")) by reflexivity.
  assert (H3 : forall sec, VStr "/dev/ttyUSB0" <> VSec sec) by (intros sec; discriminate).
  split; [exact H0|]. split; [exact H1|]. split; [exact H2|]. split; [exact H3|].
  exact (_initialize_scalar_entry Lab.world f _ _ _ H0 H1 H2 H3).
Defined.

(** The objects built for the keys [ds] are named after them, in order. *)
Lemma parse_devs_names w fuel ds :
  forall f hs f',
    parse_devs w fuel ds f = Some (Ok hs, f') ->
    map (fun h => Dict.get "name" (kwargs_of h)) hs
    = map (fun d => Some (VStr d)) ds.
Proof.
  induction ds as [|d ds IH]; intros f hs f' H; simpl in H.
  - by simplify_eq.
  - unfold cfg_getitem in H.
    destruct (Dict.get d (props f)) as [v0|] eqn:Hd; [|done].
    destruct (cfg_read w (trace f) (props f) d v0) as [sec|e0] eqn:Hread; [|done].
    destruct (_parse_section w fuel d sec f) as [[[[h|e] sec'] f1]|] eqn:Hp;
      [| |done]; [|done].
    destruct (parse_section_of_section _ _ _ _ _ _ _ _ Hp) as [s0 ->].
    destruct (parse_section_object _ _ _ _ _ _ _ _ Hp)
      as (stored0 & tag0 & _ & _ & _ & _ & _ & Hn).
    match type of H with context [parse_devs w fuel ds ?g] =>
      destruct (parse_devs w fuel ds g) as [[[hs'|e] f3]|] eqn:Hrest; [| |done];
        [|done] end.
    apply IH in Hrest. simplify_eq. simpl. by rewrite Hn, Hrest.
Qed.

(** A parse of the configuration leaves the graph and the cache alone. *)
Lemma parse_devs_keeps_devs w fuel ds :
  forall f r f',
    parse_devs w fuel ds f = Some (r, f') ->
    devs f' = devs f /\ _devs_dict f' = _devs_dict f /\ classes f' = classes f.
Proof.
  induction ds as [|d ds IH]; intros f r f' H; simpl in H.
  - by simplify_eq.
  - unfold cfg_getitem in H.
    destruct (Dict.get d (props f)) as [v0|] eqn:Hd; [|by simplify_eq].
    destruct (cfg_read w (trace f) (props f) d v0) as [sec|e0] eqn:Hread;
      [|by simplify_eq].
    destruct (_parse_section w fuel d sec f) as [[[r1 sec'] f1]|] eqn:Hp; [|done].
    apply parse_section_keeps in Hp as [(es & n & ->) _].
    destruct r1 as [h|e]; [|destruct sec; by simplify_eq].
    destruct sec;
      (match type of H with context [parse_devs w fuel ds ?g] =>
         destruct (parse_devs w fuel ds g) as [[r3 f3]|] eqn:Hrest; [|done] end;
       apply IH in Hrest as (H1 & H2 & H3); cbn in H1, H2, H3;
       destruct r3; simplify_eq; done).
Qed.

(** X14.  After a build that succeeded, [self.devs] holds one object for
    each top-level key of the configuration, in the order in which
    [viewkeys] yielded the keys, which is some order of all the keys; each
    object was given its key as its [name], whatever ["name"] the section
    held. *)
Theorem _initialize_one_device_per_key (w : World) (f f' : Fixture) :
  _initialize w f = (Ok tt, f') ->
  let f0 := emit (Log_debug (Msg_initialize (props f))) f in
  let yielded := key_order w (trace f0) (Dict.keys (props f)) in
  map (fun h => Dict.get "name" (kwargs_of h)) (devs f')
  = map (fun d => Some (VStr d)) yielded /\
  Permutation yielded (Dict.keys (props f)) /\
  length (devs f') = length (props f).
Proof.
  rewrite _initialize_eq. cbn zeta. intros H.
  destruct (props f) as [|[d0 v0] p0] eqn:Hp; [done|].
  destruct (parse_devs w _ _ _) as [[[hs|e] f1]|] eqn:Hd; [| |done]; [|done].
  simplify_eq. cbn [devs with_devs].
  apply parse_devs_names in Hd.
  split; [exact Hd|]. split; [apply key_order_perm|].
  apply (f_equal (@length _)) in Hd. rewrite !length_map in Hd. rewrite Hd.
  rewrite (Permutation_length (key_order_perm w _ _)).
  unfold Dict.keys. by rewrite length_map.
Qed.

Lemma _initialize_one_device_per_key_witness :
  let f := with_props Lab.two_devices Lab.empty in
  exists f',
    _initialize Lab.world_rev f = (Ok tt, f') /\
    map (fun h => Dict.get "name" (kwargs_of h)) (devs f')
    = [Some (VStr "dev2"); Some (VStr "dev1")] /\
    map cls_of (devs f') = ["dev.Hydra"; "dev.Device"] /\
    let f0 := emit (Log_debug (Msg_initialize (props f))) f in
    let yielded := key_order Lab.world_rev (trace f0) (Dict.keys (props f)) in
    map (fun h => Dict.get "name" (kwargs_of h)) (devs f')
    = map (fun d => Some (VStr d)) yielded /\
    Permutation yielded (Dict.keys (props f)) /\
    length (devs f') = length (props f).
Proof.
  intros f. eexists. split; [vm_compute; reflexivity|].
  split; [reflexivity|]. split; [reflexivity|].
  apply (_initialize_one_device_per_key Lab.world_rev f). vm_compute. reflexivity.
Defined.

Lemma _initialize_twice_witness :
  let f := with_props Lab.device_with_conn Lab.empty in
  exists f',
    _initialize Lab.world f = (Ok tt, f') /\
    fst (_initialize Lab.world f') = Raise (KeyError (VStr "type")).
Proof.
  intros f. eexists. split; [vm_compute; reflexivity|].
  apply (_initialize_twice Lab.world f). vm_compute. reflexivity.
Defined.

(** A build that fails leaves [self.devs] as it was. *)
Lemma _initialize_failed_keeps_devs w f e :
  fst (_initialize w f) = Raise e -> devs (snd (_initialize w f)) = devs f.
Proof.
  rewrite _initialize_eq. cbn zeta.
  destruct (props f) as [|[d0 v0] p0] eqn:Hp; [done|].
  destruct (parse_devs w _ _ _) as [[[hs|e'] f1]|] eqn:Hd; [done| |done].
  apply parse_devs_keeps_devs in Hd as (Hd & _). done.
Qed.

(** When the devices can be closed, [read] comes to its build with the
    graph emptied and the source merged. *)
Lemma read_eq w source f :
  (forall tr h, In h (devs f) -> dev_close_all w tr h = None) ->
  read w source f
  = _initialize w
      (with_props (merge source (props f))
         (with_devs []
            (emits (Log_debug (Msg_read source) :: Log_debug Msg_teardown
                      :: map Call_close_all (devs f)) f))).
Proof.
  intros Hok. unfold read, log, modify. unfold bind at 1 2 3.
  rewrite tear_down_ok by (cbn [devs emit emits]; exact Hok).
  cbv beta iota. unfold emit, emits, with_devs, with_props.
  cbn [name devs _devs_dict classes props next_oid trace].
  by rewrite <- app_assoc.
Qed.

(** X16.  When the devices can be closed and the build fails, [read]
    leaves the fixture without devices: the old graph is gone and no part
    of a new one is kept. *)
Theorem read_failed_build_leaves_no_devices (w : World) (source : section)
    (f : Fixture) (e : exn) :
  (forall tr h, In h (devs f) -> dev_close_all w tr h = None) ->
  fst (read w source f) = Raise e ->
  devs (snd (read w source f)) = [].
Proof.
  intros Hok. rewrite read_eq by done. intros H.
  by rewrite (_initialize_failed_keeps_devs _ _ e).
Qed.

Lemma read_failed_build_leaves_no_devices_witness :
  (forall tr h, In h (devs Lab.two_good) -> dev_close_all Lab.world tr h = None) /\
  fst (read Lab.world [("dev1", Lab.unknown_type)] Lab.two_good)
  = Raise (KeyError (VStr "Toaster")) /\
  devs (snd (read Lab.world [("dev1", Lab.unknown_type)] Lab.two_good)) = [].
Proof.
  assert (H : fst (read Lab.world [("dev1", Lab.unknown_type)] Lab.two_good)
              = Raise (KeyError (VStr "Toaster"))) by (vm_compute; reflexivity).
  split; [exact lab_good_devices_close|]. split; [exact H|].
  exact (read_failed_build_leaves_no_devices Lab.world _ Lab.two_good _
           lab_good_devices_close H).
Defined.

(** X17.  [read] closes the devices before it merges: when a [close_all]
    raises, [read] raises with it, the new source is not merged into
    [self.props] and nothing is built. *)
Theorem read_stops_when_tear_down_fails (w : World) (source : section) (f : Fixture)
    (pre : list handle) (d : handle) (post : list handle) (e : exn) :
  devs f = (pre ++ d :: post)%list ->
  (forall tr h, In h pre -> dev_close_all w tr h = None) ->
  (forall tr, dev_close_all w tr d = Some e) ->
  read w source f
  = (Raise e,
     emits (Log_debug (Msg_read source) :: Log_debug Msg_teardown
              :: map Call_close_all (pre ++ [d])) f).
Proof.
  intros Hd Hpre Hbad. unfold read, log, modify. unfold bind at 1 2.
  rewrite (tear_down_raise w _ pre d post e) by done.
  by rewrite emit_emits.
Qed.

Lemma read_stops_when_tear_down_fails_witness :
  devs Lab.bad_first = ([] ++ Lab.d1 :: [Lab.d3])%list /\
  (forall tr h, In h [] -> dev_close_all Lab.world tr h = None) /\
  (forall tr, dev_close_all Lab.world tr Lab.d1 = Some (External "stuck")) /\
  props (snd (read Lab.world Lab.one_device Lab.bad_first)) = [].
Proof.
  assert (H1 : devs Lab.bad_first = ([] ++ Lab.d1 :: [Lab.d3])%list) by reflexivity.
  assert (H2 : forall tr h, In h [] -> dev_close_all Lab.world tr h = None)
    by (intros tr h []).
  assert (H3 : forall tr, dev_close_all Lab.world tr Lab.d1 = Some (External "stuck"))
    by reflexivity.
  split; [exact H1|]. split; [exact H2|]. split; [exact H3|].
  rewrite (read_stops_when_tear_down_fails Lab.world Lab.one_device Lab.bad_first
             [] Lab.d1 [Lab.d3] (External "stuck") H1 H2 H3).
  reflexivity.
Defined.

(** ** [_parse_section]: the connections *)

Lemma p_each_names w fuel cs items :
  forall s f hs s' f',
    p_each w (_parse_section w fuel) cs items s f = Some (Ok hs, s', f') ->
    map (fun h => Dict.get "name" (kwargs_of h)) hs
    = map (fun kv => Some (VStr (fst kv))) items /\
    (forall kv, In kv items -> is_section (snd kv) = true).
Proof.
  induction items as [|[k v] items IH]; intros s f hs s' f' H; simpl in H.
  - unfold pret in H. simplify_eq. split; [done|]. by intros ? [].
  - unfold pbind at 1 in H. unfold pself in H.
    destruct (cfg_read w (trace f) cs k v) as [v1|e0] eqn:Hread; [|done].
    unfold pbind at 1 in H. unfold pcall in H.
    destruct (_parse_section w fuel k v1 f) as [[[[h|e] v2] f1]|] eqn:Hp;
      [| |done]; [|done].
    unfold pbind at 1 in H.
    destruct (p_each _ _ cs items s f1) as [[[[hs1|e] s1] f2]|] eqn:Hrest; [| |done];
      [|done].
    unfold pret in H. simplify_eq. apply IH in Hrest as [Hrest Hsecs].
    destruct (parse_section_of_section _ _ _ _ _ _ _ _ Hp) as [s0 ->].
    apply cfg_read_section in Hread as ->.
    destruct (parse_section_object _ _ _ _ _ _ _ _ Hp)
      as (stored0 & tag0 & _ & _ & _ & _ & _ & Hn).
    split; [simpl; by rewrite Hn, Hrest|].
    intros kv [<-|Hin]; [done|by apply Hsecs].
Qed.

(** X18.  The connections of a device are built from the sub-sections of
    ["conns"], one object for each, in their order, and each is named after
    its sub-section; the device gets the list as its keyword argument
    ["conns"]. *)
Theorem conns_built_in_order (w : World) (fuel : nat) (nm : string) (sec : section)
    (f : Fixture) (h : handle) (v' : value) (f' : Fixture)
    (items : list (string * value)) :
  _parse_section w (S fuel) nm (VSec sec) f = Some (Ok h, v', f') ->
  Dict.get "conns" sec = Some (VSec items) ->
  exists hs,
    Dict.get "conns" (kwargs_of h) = Some (VObjs hs) /\
    map (fun c => Dict.get "name" (kwargs_of c)) hs
    = map (fun kv => Some (VStr (fst kv))) items.
Proof.
  intros H Hconns.
  apply parse_section_ok in H as (sec' & -> & H).
  apply parse_body_ok in H
    as (stored & tag & ty & s1 & f1 & s2 & f2 & s3 & f3
        & _ & _ & _ & H1 & H2 & H3 & H4).
  apply parse_conns_ok in H1.
  apply parse_bcc_ok in H2; [|apply parse_section_of_section].
  apply parse_bctrl_ok in H3; [|apply parse_section_of_section].
  apply parse_new_ok in H4 as (-> & -> & _).
  rewrite get_remove_ne, Hconns in H1 by done.
  destruct H1 as (cs & items' & hs & Hread & Hit & Heach & ->).
  cbn [cfg_read] in Hread. injection Hread as <-.
  simpl in Hit. injection Hit as <-.
  apply p_each_names in Heach as [Hnames _].
  exists hs. split; [|done]. cbn [kwargs_of]. dict_simpl.
  assert (H2' : Dict.get "conns" s2 = Some (VObjs hs)).
  { destruct (Dict.get "bcc" _).
    - destruct H2 as (? & ? & _ & ->). by dict_simpl.
    - destruct H2 as [-> _]. by dict_simpl. }
  destruct (Dict.get "bctrl" s2).
  - destruct H3 as (? & ? & _ & ->). by dict_simpl.
  - by destruct H3 as [-> _].
Qed.

Lemma conns_built_in_order_witness :
  exists h v' f',
    _parse_section Lab.world 2 "dev1"
      (VSec [("type", VStr "Device");
             ("conns", VSec [("conn1", VSec [("type", VStr "SerialConnection")]);
                             ("conn2", VSec [("type", VStr "SshConnection")])])])
      Lab.empty
    = Some (Ok h, v', f') /\
    exists hs,
      Dict.get "conns" (kwargs_of h) = Some (VObjs hs) /\
      map (fun c => Dict.get "name" (kwargs_of c)) hs
      = [Some (VStr "conn1"); Some (VStr "conn2")].
Proof.
  destruct (_parse_section Lab.world 2 "dev1" _ Lab.empty)
    as [[[[h|e] v'] f']|] eqn:H; try (vm_compute in H; discriminate H).
  exists h, v', f'. split; [reflexivity|].
  exact (conns_built_in_order Lab.world 1 "dev1" _ Lab.empty h v' f' _ H eq_refl).
Defined.

(** ** [_parent_dirs] *)

(** X20.  When a directory that is not its own parent has a parent with a
    shorter name, the loop of [_parent_dirs] ends: the paths yielded start
    with [path], each next one is the parent of the one before and is
    shorter, and the last one, and no other, is its own parent. *)
Theorem parent_dirs_chain (dirname : string -> string) (path : string) :
  (forall p, dirname p <> p -> (String.length (dirname p) < String.length p)%nat) ->
  exists l,
    _parent_dirs dirname (S (String.length path)) path = Some l /\
    head l = Some path /\
    (forall i p q, l !! i = Some p -> l !! (S i) = Some q ->
                   q = dirname p /\ dirname p <> p /\
                   (String.length q < String.length p)%nat) /\
    (exists z, last l = Some z /\ dirname z = z).
Proof.
  intros Hshort.
  assert (Hgen : forall fuel p, (String.length p < fuel)%nat ->
    exists l,
      _parent_dirs dirname fuel p = Some l /\
      head l = Some p /\
      (forall i x y, l !! i = Some x -> l !! (S i) = Some y ->
                     y = dirname x /\ dirname x <> x /\
                     (String.length y < String.length x)%nat) /\
      (exists z, last l = Some z /\ dirname z = z)).
  { induction fuel as [|fuel IH]; intros p Hp; [lia|]. simpl.
    destruct (String.eqb_spec p (dirname p)) as [Heq|Hne].
    - exists [p]. split; [done|]. split; [done|]. split.
      + intros [|i] x y Hx Hy; done.
      + exists p. by split.
    - assert (Hd : dirname p <> p) by congruence.
      specialize (Hshort p Hd).
      destruct (IH (dirname p)) as (l & -> & Hhd & Hchain & Hlast); [lia|].
      exists (p :: l). split; [done|]. split; [done|]. split.
      + intros [|i] x y Hx Hy.
        * simpl in Hx, Hy. injection Hx as <-.
          destruct l as [|y' l']; [done|]. simpl in Hhd, Hy. simplify_eq. done.
        * simpl in Hx, Hy. by eapply Hchain.
      + destruct Hlast as (z & Hz & Hfix). exists z. split; [|done].
        destruct l as [|y' l']; [done|]. by rewrite last_cons, Hz. }
  apply Hgen. lia.
Qed.

Lemma drop_while_length p l : (length (Posix.drop_while p l) <= length l)%nat.
Proof.
  induction l as [|c l IH]; simpl; [done|]. destruct (p c); simpl; lia.
Qed.

Lemma drop_while_same p l :
  length (Posix.drop_while p l) = length l -> Posix.drop_while p l = l.
Proof.
  destruct l as [|c l]; simpl; [done|]. destruct (p c); [|done].
  pose proof (drop_while_length p l). lia.
Qed.

Lemma length_string_of_list l :
  String.length (string_of_list_ascii l) = length l.
Proof. induction l as [|c l IH]; simpl; [done|by rewrite IH]. Qed.

Lemma length_list_of_string s :
  length (list_ascii_of_string s) = String.length s.
Proof. induction s as [|c s IH]; simpl; [done|by rewrite IH]. Qed.

(** [posixpath.dirname] gives a shorter path or the path itself. *)
Lemma posix_dirname_shorter p :
  Posix.dirname p <> p ->
  (String.length (Posix.dirname p) < String.length p)%nat.
Proof.
  unfold Posix.dirname.
  set (r := rev (list_ascii_of_string p)).
  set (h1 := Posix.drop_while (fun c => negb (Posix.is_slash c)) r).
  set (h2 := if forallb Posix.is_slash h1 then h1 else Posix.drop_while Posix.is_slash h1).
  intros Hne. rewrite length_string_of_list, length_rev.
  assert (Hr : length r = String.length p)
    by (unfold r; by rewrite length_rev, length_list_of_string).
  assert (H1 : (length h1 <= length r)%nat) by apply drop_while_length.
  assert (H2 : (length h2 <= length h1)%nat).
  { unfold h2. destruct (forallb _ h1); [done|apply drop_while_length]. }
  destruct (decide (length h2 = length r)) as [Heq|Hlt]; [|lia].
  exfalso. apply Hne.
  assert (Hh1 : h1 = r) by (apply drop_while_same; change (length h1 = length r); lia).
  assert (Hh2 : h2 = h1).
  { clear Hne. unfold h2 in *. destruct (forallb Posix.is_slash h1); [done|].
    apply drop_while_same. lia. }
  rewrite Hh2, Hh1. unfold r. rewrite rev_involutive.
  apply string_of_list_ascii_of_string.
Qed.

Lemma parent_dirs_chain_witness :
  (forall p, Posix.dirname p <> p ->
             (String.length (Posix.dirname p) < String.length p)%nat) /\
  _parent_dirs Posix.dirname (S (String.length "/home/monk/tests")) "/home/monk/tests"
  = Some ["/home/monk/tests"; "/home/monk"; "/home"; "/"] /\
  exists l,
    _parent_dirs Posix.dirname (S (String.length "/home/monk/tests")) "/home/monk/tests"
    = Some l /\
    head l = Some "/home/monk/tests" /\
    (forall i p q, l !! i = Some p -> l !! (S i) = Some q ->
                   q = Posix.dirname p /\ Posix.dirname p <> p /\
                   (String.length q < String.length p)%nat) /\
    (exists z, last l = Some z /\ Posix.dirname z = z).
Proof.
  split; [exact posix_dirname_shorter|]. split; [vm_compute; reflexivity|].
  exact (parent_dirs_chain Posix.dirname "/home/monk/tests" posix_dirname_shorter).
Defined.

(** ** What a build never does *)

Lemma cmd_calls_app tr1 tr2 :
  cmd_calls (tr1 ++ tr2) = (cmd_calls tr1 ++ cmd_calls tr2)%list.
Proof.
  induction tr1 as [|e tr1 IH]; [done|].
  destruct e; simpl; rewrite IH; done.
Qed.

(** The steps of a parse, for any relation between the fixture before and
    after that holds when nothing is done, when a line is logged, when a
    class is called and when an object is allocated, and that is
    transitive. *)
Section Quiet.

Variable w : World.
Variable R : Fixture -> Fixture -> Prop.

Hypothesis R_refl : forall f, R f f.
Hypothesis R_trans : forall f1 f2 f3, R f1 f2 -> R f2 f3 -> R f1 f3.
Hypothesis R_log : forall m f, R f (emit (Log_debug m) f).
Hypothesis R_new : forall c k f, R f (emit (Call_new c k) f).
Hypothesis R_alloc : forall n f, R f (with_next_oid n f).

Variable rec : string -> value -> Fixture -> option (result handle * value * Fixture).
Hypothesis rec_R : forall nm v f r v' f', rec nm v f = Some (r, v', f') -> R f f'.

Lemma p_each_R cs items :
  forall s f r s' f', p_each w rec cs items s f = Some (r, s', f') -> R f f'.
Proof.
  induction items as [|[k v] items IH]; intros s f r s' f' H; simpl in H.
  - unfold pret in H. by simplify_eq.
  - unfold pbind at 1 in H. unfold pself in H.
    destruct (cfg_read w (trace f) cs k v) as [v1|e0]; [|by simplify_eq].
    unfold pbind at 1 in H. unfold pcall in H.
    destruct (rec k v1 f) as [[[[h|e] v'] f1]|] eqn:Hrec; [| |done];
      apply rec_R in Hrec; [|by simplify_eq].
    unfold pbind at 1 in H.
    destruct (p_each w rec cs items s f1) as [[[[hs|e] s1] f2]|] eqn:Hrest; [| |done];
      apply IH in Hrest; unfold pret in H; simplify_eq; by eapply R_trans.
Qed.

Lemma p_pop_R k s f r s' f' : p_pop w k s f = Some (r, s', f') -> f' = f.
Proof. intros H. by apply p_pop_cases in H as [-> _]. Qed.

Lemma parse_body_R nm s f r s' f' :
  parse_body w rec nm s f = Some (r, s', f') -> R f f'.
Proof.
  intros H. unfold parse_body in H.
  unfold pbind at 1 in H.
  destruct (p_pop w "type" s f) as [[[[tag|e] s0] f0]|] eqn:Hpop; [| |done];
    apply p_pop_R in Hpop as ->; [|by simplify_eq].
  unfold pbind at 1 in H. unfold p_class, pself, bind, get_self, lift in H.
  destruct (dict_getitem (classes f) tag) as [ty|e]; [|by simplify_eq].
  (* conns *)
  unfold pbind at 1 in H.
  assert (H1 : forall s0 g r1 s1 g1,
            parse_conns w rec s0 g = Some (r1, s1, g1) -> R g g1).
  { intros s0' g r1 s1 g1 Hc. unfold parse_conns, p_when, p_in in Hc.
    unfold pbind at 1 in Hc.
    destruct (Dict.mem "conns" s0'); [|unfold pret in Hc; by simplify_eq].
    unfold pbind at 1 in Hc.
    destruct (p_pop w "conns" s0' g) as [[[[cs|e] s2] g2]|] eqn:Hpop; [| |done];
      apply p_pop_R in Hpop as ->; [|by simplify_eq].
    unfold pbind at 1 in Hc. unfold pself, lift in Hc.
    destruct (iter_items cs) as [items|e]; [|by simplify_eq].
    unfold pbind at 1 in Hc.
    destruct (p_each w rec _ items _ g) as [[[[hs|e] s3] g3]|] eqn:He; [| |done];
      apply p_each_R in He; unfold p_set in Hc; by simplify_eq. }
  destruct (parse_conns w rec _ f) as [[[[[]|e] s1] f1]|] eqn:Hc; [| |done];
    apply H1 in Hc; [|by simplify_eq].
  (* bcc *)
  unfold pbind at 1 in H.
  assert (H2 : forall s0 g r1 s2 g2,
            parse_bcc w rec s0 g = Some (r1, s2, g2) -> R g g2).
  { intros s0' g r1 s2 g2 Hb. unfold parse_bcc, p_when, p_in in Hb.
    unfold pbind at 1 in Hb.
    destruct (Dict.mem "bcc" s0'); [|unfold pret in Hb; by simplify_eq].
    unfold pbind at 1 in Hb. unfold pself, log, modify in Hb.
    unfold pbind at 1 in Hb.
    destruct (p_pop w "bcc" s0' _) as [[[[bs|e] s3] g3]|] eqn:Hpop; [| |done];
      apply p_pop_R in Hpop as ->; [|simplify_eq; apply R_log].
    unfold pbind at 1 in Hb. unfold pcall in Hb.
    destruct (rec "bcc" bs _) as [[[[h|e] v'] g4]|] eqn:Hr; [| |done];
      apply rec_R in Hr; unfold p_set in Hb; simplify_eq;
      (eapply R_trans; [apply R_log|done]). }
  destruct (parse_bcc w rec s1 f1) as [[[[[]|e] s2] f2]|] eqn:Hb; [| |done];
    apply H2 in Hb; [|simplify_eq; by eapply R_trans].
  (* bctrl *)
  unfold pbind at 1 in H.
  assert (H3 : forall s0 g r1 s3 g3,
            parse_bctrl w rec s0 g = Some (r1, s3, g3) -> R g g3).
  { intros s0' g r1 s3 g3 Hb'. unfold parse_bctrl, p_when, p_in in Hb'.
    unfold pbind at 1 in Hb'.
    destruct (Dict.mem "bctrl" s0'); [|unfold pret in Hb'; by simplify_eq].
    unfold pbind at 1 in Hb'.
    destruct (p_pop w "bctrl" s0' g) as [[[[bs|e] s4] g4]|] eqn:Hpop; [| |done];
      apply p_pop_R in Hpop as ->; [|by simplify_eq].
    unfold pbind at 1 in Hb'. unfold pcall in Hb'.
    destruct (rec "bctrl" bs _) as [[[[h|e] v'] g5]|] eqn:Hr; [| |done];
      apply rec_R in Hr; unfold p_set in Hb'; by simplify_eq. }
  destruct (parse_bctrl w rec s2 f2) as [[[[[]|e] s3] f3]|] eqn:Hb'; [| |done];
    apply H3 in Hb'; [|simplify_eq; eapply R_trans; [|done]; by eapply R_trans].
  (* the object *)
  assert (H4 : R f3 f').
  { p_unfold. destruct (construct w _ ty _); simplify_eq.
    - eapply R_trans; [apply R_log|apply R_new].
    - eapply R_trans; [apply R_log|]. eapply R_trans; [apply R_new|apply R_alloc]. }
  eapply R_trans; [|exact H4]. eapply R_trans; [|exact Hb']. by eapply R_trans.
Qed.

End Quiet.

Lemma parse_section_R w (R : Fixture -> Fixture -> Prop) :
  (forall f, R f f) ->
  (forall f1 f2 f3, R f1 f2 -> R f2 f3 -> R f1 f3) ->
  (forall m f, R f (emit (Log_debug m) f)) ->
  (forall c k f, R f (emit (Call_new c k) f)) ->
  (forall n f, R f (with_next_oid n f)) ->
  forall fuel nm v f r v' f',
    _parse_section w fuel nm v f = Some (r, v', f') -> R f f'.
Proof.
  intros Hrefl Htrans Hlog Hnew Halloc.
  induction fuel as [|fuel IH]; intros nm v f r v' f' H; [done|].
  simpl in H. destruct v as [s|i|l|sec|h|hs]; try (by simplify_eq).
  destruct (parse_body w _ nm sec _) as [[[r0 s1] f1]|] eqn:Hb; [|done].
  apply (parse_body_R w R Hrefl Htrans Hlog Hnew Halloc _ IH) in Hb.
  simplify_eq. eapply Htrans; [apply Hlog|done].
Qed.

Lemma parse_devs_R w (R : Fixture -> Fixture -> Prop) :
  (forall f, R f f) ->
  (forall f1 f2 f3, R f1 f2 -> R f2 f3 -> R f1 f3) ->
  (forall m f, R f (emit (Log_debug m) f)) ->
  (forall c k f, R f (emit (Call_new c k) f)) ->
  (forall n f, R f (with_next_oid n f)) ->
  (forall p f, R f (with_props p f)) ->
  forall fuel ds f r f',
    parse_devs w fuel ds f = Some (r, f') -> R f f'.
Proof.
  intros Hrefl Htrans Hlog Hnew Halloc Hprops fuel.
  induction ds as [|d ds IH]; intros f r f' H; simpl in H.
  - by simplify_eq.
  - unfold cfg_getitem in H.
    destruct (Dict.get d (props f)) as [v0|]; [|by simplify_eq].
    destruct (cfg_read w (trace f) (props f) d v0) as [sec|e0]; [|by simplify_eq].
    destruct (_parse_section w fuel d sec f) as [[[r1 sec'] f1]|] eqn:Hp; [|done].
    apply (parse_section_R w R Hrefl Htrans Hlog Hnew Halloc) in Hp.
    assert (H2 : R f (match sec with
                      | VSec _ => with_props (Dict.set d sec' (props f1)) f1
                      | _ => f1
                      end)).
    { destruct sec; try exact Hp. eapply Htrans; [exact Hp|apply Hprops]. }
    destruct r1 as [h|e]; [|by simplify_eq].
    match type of H with context [parse_devs w fuel ds ?g] =>
      destruct (parse_devs w fuel ds g) as [[r3 f3]|] eqn:Hrest; [|done] end.
    apply IH in Hrest. destruct r3; simplify_eq; by eapply Htrans.
Qed.

(** X22.  A build only logs and constructs: [_initialize] calls neither
    [cmd] nor [close_all] nor [reset_config] on any object, whether it
    succeeds or fails, and it leaves the cache of names alone. *)
Theorem _initialize_calls_no_device (w : World) (f : Fixture) :
  let f' := snd (_initialize w f) in
  cmd_calls (trace f') = cmd_calls (trace f) /\
  close_all_calls (trace f') = close_all_calls (trace f) /\
  reset_config_calls (trace f') = reset_config_calls (trace f) /\
  _devs_dict f' = _devs_dict f.
Proof.
  set (R := fun g g' : Fixture =>
              cmd_calls (trace g') = cmd_calls (trace g) /\
              close_all_calls (trace g') = close_all_calls (trace g) /\
              reset_config_calls (trace g') = reset_config_calls (trace g) /\
              _devs_dict g' = _devs_dict g).
  assert (Hrefl : forall g, R g g) by done.
  assert (Htrans : forall g1 g2 g3, R g1 g2 -> R g2 g3 -> R g1 g3).
  { intros g1 g2 g3 (A1 & A2 & A3 & A4) (B1 & B2 & B3 & B4).
    repeat split; congruence. }
  assert (Hlog : forall m g, R g (emit (Log_debug m) g)).
  { intros m g. unfold R. cbn [trace emit emits _devs_dict].
    rewrite cmd_calls_app, close_all_calls_app, reset_config_calls_app.
    simpl. by rewrite !app_nil_r. }
  assert (Hnew : forall c k g, R g (emit (Call_new c k) g)).
  { intros c k g. unfold R. cbn [trace emit emits _devs_dict].
    rewrite cmd_calls_app, close_all_calls_app, reset_config_calls_app.
    simpl. by rewrite !app_nil_r. }
  assert (Halloc : forall n g, R g (with_next_oid n g)) by done.
  assert (Hprops : forall p g, R g (with_props p g)) by done.
  change (R f (snd (_initialize w f))).
  rewrite _initialize_eq. cbn zeta.
  destruct (props f) as [|[d0 v0] p0]; [apply Hlog|].
  destruct (parse_devs w _ _ _) as [[[hs|e] f1]|] eqn:Hd; [| |apply Hlog].
  - apply (parse_devs_R w R Hrefl Htrans Hlog Hnew Halloc Hprops) in Hd.
    cbn [snd]. eapply Htrans; [apply Hlog|]. eapply Htrans; [exact Hd|]. done.
  - apply (parse_devs_R w R Hrefl Htrans Hlog Hnew Halloc Hprops) in Hd.
    cbn [snd]. eapply Htrans; [apply Hlog|exact Hd].
Qed.

(** A build closes nothing. *)
Lemma _initialize_close_all_calls w f :
  close_all_calls (trace (snd (_initialize w f))) = close_all_calls (trace f).
Proof.
  set (R := fun g g' : Fixture =>
              close_all_calls (trace g') = close_all_calls (trace g)).
  assert (Hrefl : forall g, R g g) by done.
  assert (Htrans : forall g1 g2 g3, R g1 g2 -> R g2 g3 -> R g1 g3)
    by (unfold R; congruence).
  assert (Hlog : forall m g, R g (emit (Log_debug m) g)).
  { intros m g. unfold R. cbn [trace emit emits].
    rewrite close_all_calls_app. simpl. by rewrite app_nil_r. }
  assert (Hnew : forall c k g, R g (emit (Call_new c k) g)).
  { intros c k g. unfold R. cbn [trace emit emits].
    rewrite close_all_calls_app. simpl. by rewrite app_nil_r. }
  assert (Halloc : forall n g, R g (with_next_oid n g)) by done.
  assert (Hprops : forall p g, R g (with_props p g)) by done.
  change (R f (snd (_initialize w f))).
  rewrite _initialize_eq. cbn zeta.
  destruct (props f) as [|[d0 v0] p0]; [apply Hlog|].
  destruct (parse_devs w _ _ _) as [[[hs|e] f1]|] eqn:Hd; [| |apply Hlog];
    apply (parse_devs_R w R Hrefl Htrans Hlog Hnew Halloc Hprops) in Hd;
    cbn [snd]; (eapply Htrans; [apply Hlog|]); [|exact Hd].
  eapply Htrans; [exact Hd|]. done.
Qed.

(** X21.  When the devices can be closed, [read] calls [close_all] once
    on each device of the old graph, in order, and on no other object,
    whether the build that follows succeeds or fails. *)
Theorem read_closes_old_devices_once (w : World) (source : section) (f : Fixture) :
  (forall tr h, In h (devs f) -> dev_close_all w tr h = None) ->
  close_all_calls (trace (snd (read w source f)))
  = (close_all_calls (trace f) ++ devs f)%list.
Proof.
  intros Hok. rewrite read_eq by done.
  rewrite _initialize_close_all_calls.
  cbn [trace with_props with_devs emits].
  rewrite close_all_calls_app. cbn [close_all_calls].
  by rewrite close_all_calls_map.
Qed.

Lemma read_closes_old_devices_once_witness :
  (forall tr h, In h (devs Lab.two_good) -> dev_close_all Lab.world tr h = None) /\
  close_all_calls (trace (snd (read Lab.world Lab.one_device Lab.two_good)))
  = [Lab.d3; Lab.d4].
Proof.
  split; [exact lab_good_devices_close|].
  exact (read_closes_old_devices_once Lab.world Lab.one_device Lab.two_good
           lab_good_devices_close).
Defined.
